(** * Immutable audit log: a hash-chained audit trail

    A shallow embedding of [audit_logger.py] (class [AuditLogger]) and
    the properties of its hash chain: appending ([log_change]),
    verification ([verify_chain_integrity]) and the history query
    ([get_resource_history]).

    Python values are modelled as follows.
    - [str] is [string]; every character stands for the code point of
      the same number (0..255).
    - [bytes] is [list byte].
    - the [audit_logs] table is a list of rows in heap order; the
      [ORDER BY created_at] of the queries is a stable sort of it.
    - [hashlib.sha256] and [hmac.new(..., hashlib.sha256)] are written
      out after FIPS 180-4 and RFC 2104, so that a digest can be
      evaluated.
    - a call runs on a connection: the table every reader sees and the
      rows of the open transaction; what the call takes from outside
      (the two clocks, the identifier drawn by the server, a failure
      of the server at some statement) is an argument.  The pool only
      hands the connection out and takes it back; it is left out. *)

From Stdlib Require Import ZArith List String Ascii Bool Lia.
From Stdlib Require Import Init.Byte Sorting.Permutation Sorting.Sorted.
From Stdlib Require Import DecimalString.
Import ListNotations.

Set Warnings "-register-all".

Local Open Scope Z_scope.

(* ================================================================= *)
(** ** SHA-256 and HMAC *)

Module SHA256.

(** 32-bit words are integers in [0, 2^32). *)
Definition mask32 : Z := 0xffffffff.
Definition trunc32 (x : Z) : Z := Z.land x mask32.
Definition add32 (x y : Z) : Z := trunc32 (x + y).
Definition not32 (x : Z) : Z := Z.lxor x mask32.
Definition rotr (n x : Z) : Z :=
  Z.lor (Z.shiftr x n) (trunc32 (Z.shiftl x (32 - n))).

Definition Ch (x y z : Z) : Z :=
  Z.lxor (Z.land x y) (Z.land (not32 x) z).
Definition Maj (x y z : Z) : Z :=
  Z.lxor (Z.lxor (Z.land x y) (Z.land x z)) (Z.land y z).
Definition bsig0 (x : Z) : Z :=
  Z.lxor (Z.lxor (rotr 2 x) (rotr 13 x)) (rotr 22 x).
Definition bsig1 (x : Z) : Z :=
  Z.lxor (Z.lxor (rotr 6 x) (rotr 11 x)) (rotr 25 x).
Definition ssig0 (x : Z) : Z :=
  Z.lxor (Z.lxor (rotr 7 x) (rotr 18 x)) (Z.shiftr x 3).
Definition ssig1 (x : Z) : Z :=
  Z.lxor (Z.lxor (rotr 17 x) (rotr 19 x)) (Z.shiftr x 10).

(** The constants are the first 32 bits of the fractional parts of
the cube roots (round constants) and of the square roots (initial
value) of the first primes. *)
Definition is_prime (n : Z) : bool :=
forallb (fun d => negb (n mod d =? 0))
        (map Z.of_nat (seq 2 (Z.to_nat n - 2))).

Definition primes (count : nat) : list Z :=
firstn count (filter is_prime (map Z.of_nat (seq 2 310))).

(** The integer part of the cube root of [n], for [n] below [2^105]. *)
Definition cube_root (n : Z) : Z :=
fold_left (fun r i => let r' := r + 2 ^ i in if r' ^ 3 <=? n then r' else r)
          (map Z.of_nat (rev (seq 0 35))) 0.

Definition K : list Z :=
Eval vm_compute in
  map (fun p => trunc32 (cube_root (p * 2 ^ 96))) (primes 64).

(** The eight working variables / the chaining value. *)
Record state : Type := State {
  sa : Z; sb : Z; sc : Z; sd : Z; se : Z; sf : Z; sg : Z; sh : Z
}.

Definition H0 : state :=
Eval vm_compute in
  match map (fun p => trunc32 (Z.sqrt (p * 2 ^ 64))) (primes 8) with
  | [a; b; c; d; e; f; g; h] => State a b c d e f g h
  | _ => State 0 0 0 0 0 0 0 0
  end.

Definition byteZ (b : byte) : Z := Z.of_N (Byte.to_N b).
Definition Zbyte (z : Z) : byte :=
  match Byte.of_N (Z.to_N (Z.land z 0xff)) with
  | Some b => b
  | None => x00
  end.

(** Big-endian bytes of a word of [n] bytes, most significant first. *)
Fixpoint be_bytes (n : nat) (x : Z) : list byte :=
  match n with
  | O => []
  | S n' => Zbyte (Z.shiftr x (8 * Z.of_nat n')) :: be_bytes n' x
  end.

Definition be_word (bs : list byte) : Z :=
  fold_left (fun acc b => Z.lor (Z.shiftl acc 8) (byteZ b)) bs 0.

(** Padding: a [0x80] byte, zeros up to 56 mod 64, the bit length on
    eight bytes. *)
Definition pad (msg : list byte) : list byte :=
  let len := Z.of_nat (List.length msg) in
  let zeros := Z.to_nat ((55 - len) mod 64) in
  msg ++ x80 :: repeat x00 zeros ++ be_bytes 8 (8 * len).

Fixpoint chunks (fuel : nat) (n : nat) (l : list byte) : list (list byte) :=
  match fuel, l with
  | O, _ | _, [] => []
  | S fuel', _ => firstn n l :: chunks fuel' n (skipn n l)
  end.

Definition block_words (blk : list byte) : list Z :=
  map be_word (chunks 16 4 blk).

(** The message schedule, kept newest word first while it grows. *)
Fixpoint extend (n : nat) (rev_w : list Z) : list Z :=
  match n with
  | O => rev_w
  | S n' =>
      let w := add32 (add32 (ssig1 (nth 1 rev_w 0)) (nth 6 rev_w 0))
                     (add32 (ssig0 (nth 14 rev_w 0)) (nth 15 rev_w 0)) in
      extend n' (w :: rev_w)
  end.

Definition schedule (blk : list byte) : list Z :=
  rev (extend 48 (rev (block_words blk))).

Definition round (s : state) (kw : Z * Z) : state :=
  let t1 := add32 (add32 (add32 (sh s) (bsig1 (se s)))
                         (add32 (Ch (se s) (sf s) (sg s)) (fst kw)))
                  (snd kw) in
  let t2 := add32 (bsig0 (sa s)) (Maj (sa s) (sb s) (sc s)) in
  State (add32 t1 t2) (sa s) (sb s) (sc s)
        (add32 (sd s) t1) (se s) (sf s) (sg s).

Definition compress (h : state) (blk : list byte) : state :=
  let s := fold_left round (combine K (schedule blk)) h in
  State (add32 (sa h) (sa s)) (add32 (sb h) (sb s))
        (add32 (sc h) (sc s)) (add32 (sd h) (sd s))
        (add32 (se h) (se s)) (add32 (sf h) (sf s))
        (add32 (sg h) (sg s)) (add32 (sh h) (sh s)).

Definition state_bytes (s : state) : list byte :=
  be_bytes 4 (sa s) ++ be_bytes 4 (sb s) ++ be_bytes 4 (sc s) ++
  be_bytes 4 (sd s) ++ be_bytes 4 (se s) ++ be_bytes 4 (sf s) ++
  be_bytes 4 (sg s) ++ be_bytes 4 (sh s).

(** [hashlib.sha256(msg).digest()] *)
Definition digest (msg : list byte) : list byte :=
  let p := pad msg in
  state_bytes (fold_left compress (chunks (List.length p) 64 p) H0).

End SHA256.

Module HMAC.

Definition block_size : nat := 64.

Definition xor_byte (c : Z) (b : byte) : byte :=
  SHA256.Zbyte (Z.lxor c (SHA256.byteZ b)).

(** Keys longer than a block are hashed first; the key is then filled
    with zeros to a whole block. *)
Definition block_key (key : list byte) : list byte :=
  let k := if Nat.ltb block_size (List.length key)
           then SHA256.digest key else key in
  k ++ repeat x00 (block_size - List.length k).

(** [hmac.new(key, msg, hashlib.sha256).digest()] *)
Definition digest (key msg : list byte) : list byte :=
  let k := block_key key in
  let inner := SHA256.digest (map (xor_byte 0x36) k ++ msg) in
  SHA256.digest (map (xor_byte 0x5c) k ++ inner).

End HMAC.

(** Lower-case hexadecimal text of a byte string ([hexdigest]). *)
Definition hex_digit (z : Z) : ascii :=
  ascii_of_N (Z.to_N (if z <? 10 then 48 + z else 87 + z)).

Fixpoint hexlify (bs : list byte) : string :=
  match bs with
  | [] => EmptyString
  | b :: bs' =>
      let z := SHA256.byteZ b in
      String (hex_digit (Z.shiftr z 4))
             (String (hex_digit (Z.land z 15)) (hexlify bs'))
  end.

(** [str.encode()]: UTF-8 of a string of code points below 256. *)
Fixpoint encode (s : string) : list byte :=
  match s with
  | EmptyString => []
  | String c s' =>
      let z := Z.of_N (N_of_ascii c) in
      if z <? 128 then SHA256.Zbyte z :: encode s'
      else SHA256.Zbyte (Z.lor 0xc0 (Z.shiftr z 6))
           :: SHA256.Zbyte (Z.lor 0x80 (Z.land z 0x3f)) :: encode s'
  end.

Definition sha256_hexdigest (msg : string) : string :=
  hexlify (SHA256.digest (encode msg)).

Definition hmac_sha256_hexdigest (key msg : list byte) : string :=
  hexlify (HMAC.digest key msg).

Local Open Scope string_scope.

(* ================================================================= *)
(** ** Python values: JSON data, [json.dumps], [datetime] *)

Definition dquote : ascii := "034"%char.
Definition backslash : ascii := "092"%char.

(** The values [old_val] and [new_val] can hold: what [json.dumps]
    accepts, without floats.  [JNull] is Python's [None]; a [dict] is
    its list of items in insertion order. *)
Inductive json : Type :=
| JNull
| JBool (b : bool)
| JInt (n : Z)
| JStr (s : string)
| JArr (items : list json)
| JObj (fields : list (string * json)).

(** Python truthiness, as tested by [if old_val]. *)
Definition truthy (v : json) : bool :=
  match v with
  | JNull => false
  | JBool b => b
  | JInt n => negb (n =? 0)%Z
  | JStr s => negb (s =? "")
  | JArr items => match items with [] => false | _ => true end
  | JObj fields => match fields with [] => false | _ => true end
  end.

(** A stable insertion sort: [sorted] of Python, [ORDER BY] of the
    queries. *)
Section Sort.
Context {A : Type} (leb : A -> A -> bool).

Fixpoint insert (x : A) (l : list A) : list A :=
  match l with
  | [] => [x]
  | y :: l' => if leb x y then x :: l else y :: insert x l'
  end.

Definition sort (l : list A) : list A := fold_right insert [] l.
End Sort.

Fixpoint join (sep : string) (l : list string) : string :=
  match l with
  | [] => ""
  | [s] => s
  | s :: l' => s ++ sep ++ join sep l'
  end.

(** [n] as [width] decimal digits, zero filled ([%0<width>d]). *)
Fixpoint digits (width : nat) (n : Z) : string :=
  match width with
  | O => ""
  | S w =>
      String (ascii_of_N (Z.to_N (48 + (n / 10 ^ Z.of_nat w) mod 10)))
             (digits w n)
  end.

Definition repr_int (n : Z) : string := NilZero.string_of_int (Z.to_int n).

(** [json.encoder.py_encode_basestring_ascii] *)
Definition escape_char (c : ascii) : string :=
  let z := Z.of_N (N_of_ascii c) in
  if (z =? 34)%Z then String backslash (String dquote "")
  else if (z =? 92)%Z then String backslash (String backslash "")
  else if (z =? 10)%Z then String backslash "n"
  else if (z =? 13)%Z then String backslash "r"
  else if (z =? 9)%Z then String backslash "t"
  else if (z =? 12)%Z then String backslash "f"
  else if (z =? 8)%Z then String backslash "b"
  else if ((z <? 32) || (126 <? z))%Z then
    String backslash
      ("u00" ++ String (hex_digit (Z.shiftr z 4))
                       (String (hex_digit (Z.land z 15)) ""))
  else String c "".

Fixpoint escape (s : string) : string :=
  match s with
  | EmptyString => ""
  | String c s' => escape_char c ++ escape s'
  end.

Definition quote (s : string) : string :=
  String dquote (escape s ++ String dquote "").

Definition key_leb (a b : string * string) : bool := (fst a <=? fst b).

(** [json.dumps(v, sort_keys=True)] with the default separators. *)
Fixpoint dumps (v : json) : string :=
  match v with
  | JNull => "null"
  | JBool true => "true"
  | JBool false => "false"
  | JInt n => repr_int n
  | JStr s => quote s
  | JArr items => "[" ++ join ", " (map dumps items) ++ "]"
  | JObj fields =>
      let rendered :=
        map (fun kv : string * json => let (k, x) := kv in (k, dumps x))
            fields in
      "{" ++ join ", " (map (fun kv => quote (fst kv) ++ ": " ++ snd kv)
                            (sort key_leb rendered)) ++ "}"
  end.

(** [datetime.datetime]; [tzinfo] is the UTC offset in minutes of an
    aware value and [None] for a naive one. *)
Record datetime : Type := Datetime {
  year : Z; month : Z; day : Z;
  hour : Z; minute : Z; second : Z; microsecond : Z;
  tzinfo : option Z
}.

Definition utcoffset_text (o : option Z) : string :=
  match o with
  | None => ""
  | Some off =>
      (if (off <? 0)%Z then "-" else "+")
      ++ digits 2 (Z.abs off / 60) ++ ":" ++ digits 2 (Z.abs off mod 60)
  end.

(** [datetime.isoformat()] *)
Definition isoformat (t : datetime) : string :=
  digits 4 (year t) ++ "-" ++ digits 2 (month t) ++ "-" ++ digits 2 (day t)
  ++ "T" ++ digits 2 (hour t) ++ ":" ++ digits 2 (minute t)
  ++ ":" ++ digits 2 (second t)
  ++ (if (microsecond t =? 0)%Z then "" else "." ++ digits 6 (microsecond t))
  ++ utcoffset_text (tzinfo t).

(** Days since 1970-01-01 of a date of the proleptic Gregorian
    calendar, and the instant of a [datetime] in microseconds: the
    value PostgreSQL orders [TIMESTAMP WITH TIME ZONE] by. *)
Definition days_from_civil (y m d : Z) : Z :=
  (let y' := if m <=? 2 then y - 1 else y in
   let era := y' / 400 in
   let yoe := y' - era * 400 in
   let doy := (153 * (if m <=? 2 then m + 9 else m - 3) + 2) / 5 + d - 1 in
   let doe := yoe * 365 + yoe / 4 - yoe / 100 + doy in
   era * 146097 + doe - 719468)%Z.

Definition instant (t : datetime) : Z :=
  (let off := match tzinfo t with Some o => o | None => 0 end in
   let mins := (days_from_civil (year t) (month t) (day t) * 24 + hour t) * 60
               + minute t - off in
   (mins * 60 + second t) * 1000000 + microsecond t)%Z.

(** [str(x)] / [f"{x}"] of a value that is a [str] or [None]. *)
Definition py_str (x : option string) : string :=
  match x with
  | Some s => s
  | None => "None"
  end.

(* ================================================================= *)
(** ** The [audit_logs] table and the connection *)

(** A UUID, by its canonical text. *)
Definition uuid : Type := string.

(** One row of [audit_logs], columns in the order of [_init_db].
    A nullable column is an [option]. *)
Record audit_log : Type := AuditLog {
  log_id : uuid;
  actor_id : uuid;
  action : string;
  resource_type : option string;
  resource_id : uuid;
  old_values : option json;
  new_values : option json;
  previous_hash : option string;
  hash : string;
  created_at : option datetime
}.

Definition table : Type := list audit_log.

(** What the driver hands to Python for a JSONB column: SQL NULL and
    the JSON null both arrive as [None]. *)
Definition from_jsonb (col : option json) : json :=
  match col with
  | Some v => v
  | None => JNull
  end.

(** [ORDER BY created_at]: by instant, NULL larger than every value
    (last when ascending, first when descending).  The server is free
    in the order of rows that compare equal; here they keep their heap
    order, and what is stated of a [LIMIT] over rows that may compare
    equal does not rest on it. *)
Definition timestamp_leb (a b : option datetime) : bool :=
  match a, b with
  | _, None => true
  | None, Some _ => false
  | Some x, Some y => (instant x <=? instant y)%Z
  end.

Definition created_asc (r1 r2 : audit_log) : bool :=
  timestamp_leb (created_at r1) (created_at r2).

Definition created_desc (r1 r2 : audit_log) : bool :=
  timestamp_leb (created_at r2) (created_at r1).

(** A pooled connection: the committed table that every reader sees,
    and the rows inserted by the open transaction. *)
Record connection : Type := Conn {
  committed : table;
  pending : list audit_log
}.

Definition visible (c : connection) : table :=
  (committed c ++ pending c)%list.

Inductive statement : Type := SelectLatest | InsertLog | Commit.

Definition statement_eqb (a b : statement) : bool :=
  match a, b with
  | SelectLatest, SelectLatest | InsertLog, InsertLog | Commit, Commit => true
  | _, _ => false
  end.

Inductive exn : Type :=
| OperationalError (at_statement : statement)
| NotNullViolation (column : string)
| StringDataRightTruncation (column : string)
| UniqueViolation (constraint : string)
| NulCharacter (column : string)
| InvalidTextRepresentation (column : string).

(** Seven calendar fields read from a clock. *)
Record reading : Type := Reading {
  r_year : Z; r_month : Z; r_day : Z;
  r_hour : Z; r_minute : Z; r_second : Z; r_microsecond : Z
}.

Definition at_offset (r : reading) (tz : option Z) : datetime :=
  Datetime (r_year r) (r_month r) (r_day r)
           (r_hour r) (r_minute r) (r_second r) (r_microsecond r) tz.

(** What one call takes from outside: the two clocks, the identifier
    the server draws for the row, the time zone of the session, and
    the statement (if any) at which the server or the network fails. *)
Record environment : Type := Env {
  python_clock : reading;
  server_clock : reading;
  session_offset : Z;
  fresh_uuid : uuid;
  fault : option statement
}.

(** [datetime.utcnow()]: a naive value. *)
Definition utcnow (e : environment) : datetime :=
  at_offset (python_clock e) None.

(** [CURRENT_TIMESTAMP] as the driver returns it: an aware value, at
    the offset of the session (taken to be the same when the row is
    read back). *)
Definition current_timestamp (e : environment) : datetime :=
  at_offset (server_clock e) (Some (session_offset e)).

Definition fails_at (e : environment) (s : statement) : bool :=
  match fault e with
  | Some s' => statement_eqb s s'
  | None => false
  end.

(** *** A state and exception monad for code that runs on a connection *)

Inductive outcome (A : Type) : Type :=
| Return (a : A)
| Raise (e : exn).
Arguments Return {A} a.
Arguments Raise {A} e.

Definition db (A : Type) : Type := connection -> outcome A * connection.

Definition ret {A} (a : A) : db A := fun c => (Return a, c).
Definition raise {A} (e : exn) : db A := fun c => (Raise e, c).

Definition bind {A B} (m : db A) (k : A -> db B) : db B :=
  fun c =>
    match m c with
    | (Return a, c') => k a c'
    | (Raise e, c') => (Raise e, c')
    end.

(** [try: body  except Exception as e: handler(e)] *)
Definition try_except {A} (body : db A) (handler : exn -> db A) : db A :=
  fun c =>
    match body c with
    | (Return a, c') => (Return a, c')
    | (Raise e, c') => handler e c'
    end.

Declare Scope db_scope.
Delimit Scope db_scope with db.
Notation "x <- m ;; k" := (bind m (fun x => k))
  (at level 61, m at next level, right associativity) : db_scope.
Notation "m ;;; k" := (bind m (fun _ => k))
  (at level 61, right associativity) : db_scope.

(** *** The statements the logger executes *)

Fixpoint has_nul (s : string) : bool :=
  match s with
  | EmptyString => false
  | String c s' => (N_of_ascii c =? 0)%N || has_nul s'
  end.

(** JSONB cannot hold the code point 0 in a string or in a key. *)
Fixpoint jsonb_rejects (v : json) : bool :=
  match v with
  | JNull | JBool _ | JInt _ => false
  | JStr s => has_nul s
  | JArr items => existsb jsonb_rejects items
  | JObj fields =>
      existsb (fun kv : string * json =>
                 let (k, x) := kv in has_nul k || jsonb_rejects x) fields
  end.

Definition jsonb_col_rejects (col : option json) : bool :=
  match col with
  | Some v => jsonb_rejects v
  | None => false
  end.

Fixpoint all_spaces (s : string) : bool :=
  match s with
  | EmptyString => true
  | String c s' => (c =? " ")%char && all_spaces s'
  end.

(** Storing a text into [VARCHAR(n)]: a longer text is an error,
    unless what exceeds is nothing but spaces, which are then cut
    off. *)
Definition varchar (n : nat) (s : string) : option string :=
  if Nat.leb (String.length s) n then Some s
  else if all_spaces (substring n (String.length s - n) s)
       then Some (substring 0 n s)
       else None.

Definition varchar_null (n : nat) (s : option string)
  : option (option string) :=
  match s with
  | None => Some None
  | Some t => option_map Some (varchar n t)
  end.

(** Storing a text into a [UUID] column: sixteen pairs of hexadecimal
    digits, in either case, with an optional hyphen after each group
    of four digits and optional braces around the whole; another text
    is an error.  The column gives the value back in lower case, in
    groups of 8, 4, 4, 4 and 12 digits. *)
Definition is_xdigit (c : ascii) : bool :=
  let n := N_of_ascii c in
  ((48 <=? n) && (n <=? 57) || (65 <=? n) && (n <=? 70)
   || (97 <=? n) && (n <=? 102))%N.

Definition lower_xdigit (c : ascii) : ascii :=
  let n := N_of_ascii c in
  if ((65 <=? n) && (n <=? 70))%N then ascii_of_N (n + 32) else c.

(** The digits of the bytes from the [i]-th on, [n] of them, and what
    follows them. *)
Fixpoint uuid_digits (n i : nat) (src : string) : option (string * string) :=
  match n with
  | O => Some (EmptyString, src)
  | S n' =>
      match src with
      | String a (String b rest) =>
          if is_xdigit a && is_xdigit b then
            let rest' :=
              match rest with
              | String c r =>
                  if (c =? "-")%char && Nat.odd i && Nat.ltb i 15
                  then r else rest
              | EmptyString => rest
              end in
            match uuid_digits n' (S i) rest' with
            | Some (ds, tl) =>
                Some (String (lower_xdigit a) (String (lower_xdigit b) ds),
                      tl)
            | None => None
            end
          else None
      | _ => None
      end
  end.

Definition uuid_text (ds : string) : uuid :=
  substring 0 8 ds ++ "-" ++ substring 8 4 ds ++ "-" ++ substring 12 4 ds
  ++ "-" ++ substring 16 4 ds ++ "-" ++ substring 20 12 ds.

Definition uuid_in (s : string) : option uuid :=
  let (braces, src) :=
    match s with
    | String c r => if (c =? "{")%char then (true, r) else (false, s)
    | EmptyString => (false, s)
    end in
  match uuid_digits 16 0 src with
  | Some (ds, tl) =>
      if (tl =? (if braces then "}" else ""))%string
      then Some (uuid_text ds) else None
  | None => None
  end.

Definition uuid_null (s : option string) : option (option uuid) :=
  match s with
  | None => Some None
  | Some t => option_map Some (uuid_in t)
  end.

(** [SELECT hash FROM audit_logs ORDER BY created_at DESC LIMIT 1],
    then [fetchone()]. *)
Definition select_latest_hash (e : environment) : db (option string) :=
  fun c =>
    if fails_at e SelectLatest then (Raise (OperationalError SelectLatest), c)
    else (Return (option_map hash (head (sort created_desc (visible c)))), c).

(** [INSERT INTO audit_logs (...) VALUES (...) RETURNING id] under the
    column types and constraints of [_init_db]; [id] and [created_at]
    take their defaults.  The driver refuses a text with the code
    point 0; the server reads the values of the [UUID] and [JSONB]
    columns, then cuts the texts to their columns, then checks the
    constraints. *)
Definition insert_audit_log (e : environment)
    (actor : option string) (act : string) (rtype : option string)
    (rid : string) (old new : option json) (prev h : string) : db uuid :=
  fun c =>
    if fails_at e InsertLog then (Raise (OperationalError InsertLog), c)
    else if match actor with Some a => has_nul a | None => false end
      then (Raise (NulCharacter "actor_id"), c)
    else if has_nul act then (Raise (NulCharacter "action"), c)
    else if match rtype with Some t => has_nul t | None => false end
      then (Raise (NulCharacter "resource_type"), c)
    else if has_nul rid then (Raise (NulCharacter "resource_id"), c)
    else
      match uuid_null actor, uuid_in rid with
      | None, _ => (Raise (InvalidTextRepresentation "actor_id"), c)
      | _, None => (Raise (InvalidTextRepresentation "resource_id"), c)
      | Some actor', Some rid' =>
          if jsonb_col_rejects old
          then (Raise (NulCharacter "old_values"), c)
          else if jsonb_col_rejects new
          then (Raise (NulCharacter "new_values"), c)
          else
            match varchar 50 act, varchar_null 50 rtype, actor' with
            | None, _, _ => (Raise (StringDataRightTruncation "action"), c)
            | _, None, _ =>
                (Raise (StringDataRightTruncation "resource_type"), c)
            | _, _, None => (Raise (NotNullViolation "actor_id"), c)
            | Some act', Some rtype', Some a =>
                if existsb (fun r => log_id r =? fresh_uuid e) (visible c)
                then (Raise (UniqueViolation "audit_logs_pkey"), c)
                else if existsb (fun r => hash r =? h) (visible c)
                then (Raise (UniqueViolation "audit_logs_hash_key"), c)
                else
                  let row :=
                    AuditLog (fresh_uuid e) a act' rtype' rid' old new
                             (Some prev) h (Some (current_timestamp e)) in
                  (Return (fresh_uuid e),
                   Conn (committed c) (pending c ++ [row])%list)
            end
      end.

Definition commit (e : environment) : db unit :=
  fun c =>
    if fails_at e Commit then (Raise (OperationalError Commit), c)
    else (Return tt, Conn (committed c ++ pending c)%list []).

Definition rollback : db unit :=
  fun c => (Return tt, Conn (committed c) []).

(* ================================================================= *)
(** ** [class AuditLogger] *)

Record AuditLogger : Type := Logger { secret_key : string }.

(** The dictionary both [log_change] and [verify_chain_integrity]
    build, keys in the order of the source. *)
Definition log_data_dict (actor act resource : string)
    (timestamp old new : json) : json :=
  JObj [ ("actor", JStr actor); ("action", JStr act);
         ("resource", JStr resource); ("timestamp", timestamp);
         ("old", old); ("new", new) ].

(** The text [f"{previous_hash}:{json.dumps(data, sort_keys=True)}"]. *)
Definition chain_message (previous_hash : option string) (data : json)
  : string :=
  py_str previous_hash ++ ":" ++ dumps data.

Definition _compute_hash (self : AuditLogger)
    (previous_hash : option string) (data : json) : string :=
  let message := encode (chain_message previous_hash data) in
  hmac_sha256_hexdigest (encode (secret_key self)) message.

(** [Json(v) if v else None] *)
Definition to_jsonb (v : json) : option json :=
  if truthy v then Some v else None.

(** The first half of the [try] block of [log_change]: the hash to
    chain with. *)
Definition latest_hash (e : environment) : db string :=
  (result <- select_latest_hash e ;;
   ret (match result with Some h => h | None => "genesis" end))%db.

(** The second half: hash the data, insert the row, commit. *)
Definition append_to (self : AuditLogger) (e : environment)
    (actor_id : option string) (action : string)
    (resource_type : option string) (resource_id : string)
    (old_val new_val : json) (previous_hash : string) : db uuid :=
  (let log_data :=
     log_data_dict (py_str actor_id) action
                   (py_str resource_type ++ ":" ++ resource_id)
                   (JStr (isoformat (utcnow e))) old_val new_val in
   let current_hash := _compute_hash self (Some previous_hash) log_data in
   id <- insert_audit_log e actor_id action resource_type resource_id
                          (to_jsonb old_val) (to_jsonb new_val)
                          previous_hash current_hash ;;
   commit e ;;;
   ret id)%db.

(** [except Exception as e: conn.rollback(); raise e] *)
Definition rollback_and_reraise {A} (err : exn) : db A :=
  (rollback ;;; raise err)%db.

Definition log_change (self : AuditLogger) (e : environment)
    (actor_id : option string) (action : string)
    (resource_type : option string) (resource_id : string)
    (old_val new_val : json) : db uuid :=
  try_except
    (previous_hash <- latest_hash e ;;
     append_to self e actor_id action resource_type resource_id
               old_val new_val previous_hash)%db
    rollback_and_reraise.

(** An element of [broken_links]. *)
Record broken_link : Type := BrokenLink {
  broken_id : uuid;
  expected : string;
  found : string
}.

(** The dictionary [verify_chain_integrity] rebuilds from a row. *)
Definition row_log_data (log : audit_log) : json :=
  log_data_dict (actor_id log) (action log)
                (py_str (resource_type log) ++ ":" ++ resource_id log)
                (match created_at log with
                 | Some ts => JStr (isoformat ts)
                 | None => JNull
                 end)
                (from_jsonb (old_values log)) (from_jsonb (new_values log)).

(** The [for log in logs] loop, with its two variables. *)
Fixpoint verify_loop (self : AuditLogger) (logs : list audit_log)
    (broken_links : list broken_link) (previous_hash : string)
  : list broken_link * string :=
  match logs with
  | [] => (broken_links, previous_hash)
  | log :: logs' =>
      let '(AuditLog id _ _ _ _ _ _ prev_hash curr_hash _) := log in
      let log_data := row_log_data log in
      let expected_hash := _compute_hash self prev_hash log_data in
      let broken_links :=
        if expected_hash =? curr_hash then broken_links
        else (broken_links ++ [BrokenLink id expected_hash curr_hash])%list in
      let previous_hash := curr_hash in
      verify_loop self logs' broken_links previous_hash
  end.

Definition verify_chain_integrity (self : AuditLogger) (rows : table)
  : bool * list broken_link :=
  let logs := sort created_asc rows in
  match logs with
  | [] => (true, [])
  | _ =>
      let broken_links := fst (verify_loop self logs [] "genesis") in
      (Nat.eqb (List.length broken_links) 0, broken_links)
  end.

(** An element of the list [get_resource_history] returns. *)
Record history_entry : Type := HistoryEntry {
  h_timestamp : option datetime;
  h_action : string;
  h_actor : uuid;
  h_old_values : json;
  h_new_values : json;
  h_hash : string
}.

Definition history_of_row (row : audit_log) : history_entry :=
  HistoryEntry (created_at row) (action row) (actor_id row)
               (from_jsonb (old_values row)) (from_jsonb (new_values row))
               (hash row).

(** [WHERE resource_type = %s AND resource_id = %s] for a parameter
    that the server reads as the UUID [id]: a comparison with NULL is
    not true, and the identifiers are compared as UUIDs. *)
Definition matches_uuid (rtype : option string) (id : uuid)
    (row : audit_log) : bool :=
  match rtype, resource_type row with
  | Some a, Some b => (a =? b) && (resource_id row =? id)
  | _, _ => false
  end.

(** The same for the text of the parameter; no row is compared with a
    text that is not a UUID. *)
Definition matches (rtype : option string) (rid : string) (row : audit_log)
  : bool :=
  match uuid_in rid with
  | Some id => matches_uuid rtype id row
  | None => false
  end.

(** The rows the [SELECT] of [get_resource_history] returns for a
    [resource_id] that the server reads as a UUID, turned into the
    entries of the result; on another text the statement fails, as
    [select_history] has it.  [LIMIT] takes a row count. *)
Definition get_resource_history (rows : table)
    (resource_type : option string) (resource_id : string) (limit : nat)
  : list history_entry :=
  map history_of_row
      (firstn limit
              (sort created_desc (filter (matches resource_type resource_id) rows))).

(* ================================================================= *)
(** ** Notions used in the statements *)

(** The chain is reported intact. *)
Definition valid_chain (self : AuditLogger) (rows : table) : Prop :=
  verify_chain_integrity self rows = (true, []).

(** What one row contributes to [broken_links]. *)
Definition row_verdict (self : AuditLogger) (log : audit_log)
  : list broken_link :=
  let expected_hash :=
    _compute_hash self (previous_hash log) (row_log_data log) in
  if expected_hash =? hash log then []
  else [BrokenLink (log_id log) expected_hash (hash log)].

(** The two messages do not collide under the logger's key. *)
Definition no_collision (self : AuditLogger) (m1 m2 : string) : Prop :=
  hmac_sha256_hexdigest (encode (secret_key self)) (encode m1)
  = hmac_sha256_hexdigest (encode (secret_key self)) (encode m2)
  -> m1 = m2.

(** Tampering with the table behind the logger's back:
    [DELETE FROM audit_logs WHERE p] and
    [UPDATE audit_logs SET new_values = v WHERE id = k]. *)
Definition delete_where (p : audit_log -> bool) (rows : table) : table :=
  filter (fun r => negb (p r)) rows.

Definition with_new_values (v : option json) (r : audit_log) : audit_log :=
  AuditLog (log_id r) (actor_id r) (action r) (resource_type r)
           (resource_id r) (old_values r) v (previous_hash r) (hash r)
           (created_at r).

Definition update_new_values (k : uuid) (v : option json) (rows : table)
  : table :=
  map (fun r => if log_id r =? k then with_new_values v r else r) rows.

(** A value that [if v] rejects although it is not [None]. *)
Definition falsy (v : json) : Prop := truthy v = false /\ v <> JNull.

(** Consecutive entries of a chain are linked. *)
Definition chain_linked (chain : list audit_log) : Prop :=
  forall i p r,
    nth_error chain i = Some p ->
    nth_error chain (S i) = Some r ->
    previous_hash r = Some (hash p).

(** No two entries of the table were chained to the same hash. *)
Definition fork_free (rows : table) : Prop :=
  forall i j r1 r2,
    nth_error rows i = Some r1 ->
    nth_error rows j = Some r2 ->
    previous_hash r1 = previous_hash r2 ->
    i = j.

(** A call of [log_change] with what it takes from outside. *)
Record request : Type := Request {
  rq_env : environment;
  rq_actor_id : option string;
  rq_action : string;
  rq_resource_type : option string;
  rq_resource_id : string;
  rq_old_val : json;
  rq_new_val : json
}.

Definition submit (self : AuditLogger) (q : request) : db uuid :=
  log_change self (rq_env q) (rq_actor_id q) (rq_action q)
             (rq_resource_type q) (rq_resource_id q)
             (rq_old_val q) (rq_new_val q).

(** Calls made one after the other on the same connection, whatever
    each of them returns or raises. *)
Fixpoint submit_all (self : AuditLogger) (qs : list request)
    (c : connection) : connection :=
  match qs with
  | [] => c
  | q :: qs' => submit_all self qs' (snd (submit self q c))
  end.

Definition server_time (q : request) : Z :=
  instant (current_timestamp (rq_env q)).

(** The server clock is strictly later at every next call. *)
Definition clock_increasing (qs : list request) : Prop :=
  StronglySorted (fun a b => (server_time a < server_time b)%Z) qs.

(** *** Two sessions on one server

    Each session has a connection of its own; they share the committed
    table.  A statement sees the committed rows and the rows its own
    transaction inserted. *)
Record server : Type := Server {
  shared : table;
  session1 : list audit_log;
  session2 : list audit_log
}.

Definition on_session1 {A} (m : db A) (s : server) : outcome A * server :=
  let (r, c) := m (Conn (shared s) (session1 s)) in
  (r, Server (committed c) (pending c) (session2 s)).

Definition on_session2 {A} (m : db A) (s : server) : outcome A * server :=
  let (r, c) := m (Conn (shared s) (session2 s)) in
  (r, Server (committed c) (session1 s) (pending c)).

(** The two halves of a call, each under the handler of the [try]. *)
Definition observe (e : environment) : db string :=
  try_except (latest_hash e) rollback_and_reraise.

Definition complete (self : AuditLogger) (q : request)
    (previous_hash : string) : db uuid :=
  try_except
    (append_to self (rq_env q) (rq_actor_id q) (rq_action q)
               (rq_resource_type q) (rq_resource_id q)
               (rq_old_val q) (rq_new_val q) previous_hash)
    rollback_and_reraise.

Definition and_then {A B} (r : outcome A)
    (k : A -> server -> outcome B * server) (s : server)
  : outcome B * server :=
  match r with
  | Return a => k a s
  | Raise err => (Raise err, s)
  end.

(** Both calls read the latest hash before either of them inserts. *)
Definition race (self : AuditLogger) (q1 q2 : request) (s : server)
  : outcome uuid * outcome uuid * server :=
  let (t1, s1) := on_session1 (observe (rq_env q1)) s in
  let (t2, s2) := on_session2 (observe (rq_env q2)) s1 in
  let (r1, s3) := and_then t1 (fun p => on_session1 (complete self q1 p)) s2 in
  let (r2, s4) := and_then t2 (fun p => on_session2 (complete self q2 p)) s3 in
  (r1, r2, s4).

(** The verifier as the specification words it: the expected link of
    an entry is computed from the running link, which starts at
    ["genesis"] and advances to the stored link of each entry. *)
Fixpoint running_link_loop (self : AuditLogger) (logs : list audit_log)
    (breaks : list broken_link) (running_link : string)
  : list broken_link :=
  match logs with
  | [] => breaks
  | log :: logs' =>
      let expected_link :=
        _compute_hash self (Some running_link) (row_log_data log) in
      let breaks :=
        if expected_link =? hash log then breaks
        else (breaks ++ [BrokenLink (log_id log) expected_link (hash log)])%list in
      running_link_loop self logs' breaks (hash log)
  end.

Definition running_link_verify (self : AuditLogger) (rows : table)
  : bool * list broken_link :=
  let breaks := running_link_loop self (sort created_asc rows) [] "genesis" in
  (Nat.eqb (List.length breaks) 0, breaks).

(** The hash the next entry is chained to. *)
Definition tip_hash (rows : table) : string :=
  match head (sort created_desc rows) with
  | Some r => hash r
  | None => "genesis"
  end.

(** The fixed pieces of the text of a chain message (the keys are
    sorted): what stands before the action and between the values. *)
Definition message_open (p : option string) : string :=
  py_str p ++ ":{" ++ quote "action" ++ ": ".
Definition sep_actor : string := ", " ++ quote "actor" ++ ": ".
Definition sep_new : string := ", " ++ quote "new" ++ ": ".
Definition sep_old : string := ", " ++ quote "old" ++ ": ".
Definition sep_resource : string := ", " ++ quote "resource" ++ ": ".
Definition sep_timestamp : string := ", " ++ quote "timestamp" ++ ": ".

(** The entries of [rows] are chained one to the next, the first of
    them to [prev]. *)
Fixpoint linked_from (prev : string) (rows : list audit_log) : Prop :=
  match rows with
  | [] => True
  | r :: rows' => previous_hash r = Some prev /\ linked_from (hash r) rows'
  end.

(** The hash of the last row, [prev] when there is none. *)
Definition last_hash (prev : string) (rows : list audit_log) : string :=
  fold_left (fun _ r => hash r) rows prev.

(** What holds of a table filled by calls made one after the other
    while the server clock, now before [bound], kept increasing. *)
Definition sequential (bound : Z) (rows : table) : Prop :=
  Sorted (fun a b => created_asc a b = true) rows /\
  Forall (fun r => exists t, created_at r = Some t /\ (instant t < bound)%Z)
         rows /\
  linked_from "genesis" rows /\
  tip_hash rows = last_hash "genesis" rows /\
  NoDup ("genesis" :: map hash rows).

(** Reading a quoted text back, to see that [quote] loses nothing:
    the text between the quotes and what follows the closing quote. *)
Definition hex_value (c : ascii) : Z :=
  (let z := Z.of_N (N_of_ascii c) in if z <? 58 then z - 48 else z - 87)%Z.

Definition unescape_letter (d : ascii) : ascii :=
  if (d =? "n")%char then "010"%char
  else if (d =? "r")%char then "013"%char
  else if (d =? "t")%char then "009"%char
  else if (d =? "f")%char then "012"%char
  else if (d =? "b")%char then "008"%char
  else d.

Definition prepend (c : ascii) (r : string * string) : string * string :=
  (String c (fst r), snd r).

Fixpoint read_escaped (s : string) : option (string * string) :=
  match s with
  | EmptyString => None
  | String c s1 =>
      if (c =? dquote)%char then Some (EmptyString, s1)
      else if (c =? backslash)%char then
        match s1 with
        | EmptyString => None
        | String d s2 =>
            if (d =? "u")%char then
              match s2 with
              | String _ (String _ (String h (String l s3))) =>
                  option_map
                    (prepend (ascii_of_N
                                (Z.to_N (16 * hex_value h + hex_value l))))
                    (read_escaped s3)
              | _ => None
              end
            else option_map (prepend (unescape_letter d)) (read_escaped s2)
        end
      else option_map (prepend c) (read_escaped s1)
  end.

(* ================================================================= *)
(** ** Concrete data: the invoice of the specification's scenario *)

Module Scenario.

Definition logger : AuditLogger :=
  Logger "development-key-change-in-production".

Definition u1 : uuid := "123e4567-e89b-12d3-a456-426614174000".
Definition inv1 : uuid := "987fcdeb-51a2-43d7-9b56-243678901234".

Definition draft : json := JObj [("status", JStr "draft")].
Definition paid : json := JObj [("status", JStr "paid")].
Definition void : json := JObj [("status", JStr "void")].

Definition noon (s : Z) : reading := Reading 2024 1 1 12 0 s 0.

(** Both clocks show the same time at each call; the session is in
    UTC. *)
Definition env_at (s : Z) (id : uuid) (f : option statement)
  : environment :=
  Env (noon s) (noon s) 0 id f.

Definition id_a : uuid := "00000000-0000-4000-8000-00000000000a".
Definition id_b : uuid := "00000000-0000-4000-8000-00000000000b".
Definition id_c : uuid := "00000000-0000-4000-8000-00000000000c".

(** append A(actor=u1, CREATE, INVOICE:inv1, old=null, new=draft),
    append B(actor=u1, UPDATE, INVOICE:inv1, old=draft, new=paid) *)
Definition request_a : request :=
  Request (env_at 0 id_a None) (Some u1) "CREATE" (Some "INVOICE") inv1
          JNull draft.
Definition request_b : request :=
  Request (env_at 1 id_b None) (Some u1) "UPDATE" (Some "INVOICE") inv1
          draft paid.

Definition empty : connection := Conn [] [].

(** A stored chain of three entries that the verifier accepts: each
    [hash] is the digest of the row as stored. *)
Definition stored (id : uuid) (act : string) (old new : option json)
    (prev h : string) (s : Z) : audit_log :=
  AuditLog id u1 act (Some "INVOICE") inv1 old new (Some prev) h
           (Some (at_offset (noon s) (Some 0%Z))).

Definition hash1 : string :=
  "a178ab51282267fec875ae5f013fd4067aa55a893d13a34e4631d1ffed753eb9".
Definition hash2 : string :=
  "61ad4d70c7cb888dcae0f5a8ddc45c32cdc86081ae5c23fcc0cf8b2a5643ba38".
Definition hash3 : string :=
  "a92204c46216f1164af7822a0b1595a2b4b12b0dd2ca1acf155650d32c6f78dd".

Definition entry1 : audit_log :=
  stored id_a "CREATE" None (Some draft) "genesis" hash1 0.
Definition entry2 : audit_log :=
  stored id_b "UPDATE" (Some draft) (Some paid) hash1 hash2 1.
Definition entry3 : audit_log :=
  stored id_c "DELETE" (Some paid) None hash2 hash3 2.

Definition chain3 : table := [entry1; entry2; entry3].

(** The rows the two appends of the scenario commit. *)
Definition appended_a : audit_log :=
  stored id_a "CREATE" None (Some draft) "genesis"
    "0362dc21caf4ebe1805c3e6b8194cbc976a232bc0777af9b4d3321e22d763008" 0.
Definition appended_b : audit_log :=
  stored id_b "UPDATE" (Some draft) (Some paid) (hash appended_a)
    "d343d39af105400b6cb1a87fef66078e5ec9293d862d498d43ba1ca5b69624d7" 1.

(** The row committed by a first append whose [old_val] is the
    empty object. *)
Definition appended_empty_old : audit_log :=
  stored id_a "CREATE" None (Some draft) "genesis"
    "356e6eae30eb27eb83b6503415bb4eca664fff493665c2198849eaf9a915937b" 0.

(** The server clock steps back by a second between two calls. *)
Definition request_late_a : request :=
  Request (env_at 1 id_a None) (Some u1) "CREATE" (Some "INVOICE") inv1
          JNull draft.
Definition request_early_b : request :=
  Request (env_at 0 id_b None) (Some u1) "UPDATE" (Some "INVOICE") inv1
          draft paid.

Definition late_a : audit_log :=
  stored id_a "CREATE" None (Some draft) "genesis"
    "0d8aa76414135f1e81882fdc69173ad38acc906e793d62aeb6f2051a4a70bf34" 1.
Definition early_b : audit_log :=
  stored id_b "UPDATE" (Some draft) (Some paid) (hash late_a)
    "f78248d7c380b9f5e9a76b13dc7ef901ed26ed60a5a02702b7f1d4e701c54ccb" 0.

(** The row of the second call when both calls read the latest hash
    of the empty table before either inserts. *)
Definition forked_b : audit_log :=
  stored id_b "UPDATE" (Some draft) (Some paid) "genesis"
    "9d54cc9b61fe008ca62211a55acfdfda95f031b45ea7dd99ca7575d65145d67b" 1.

Definition idle : server := Server [] [] [].

End Scenario.

(* ================================================================= *)
(** ** Further notions used in the statements *)



Fixpoint nodupb (l : list string) : bool :=
  match l with
  | [] => true
  | x :: l' => negb (existsb (String.eqb x) l') && nodupb l'
  end.

(** The keys of every object inside [v] are distinct, as in a Python
    [dict]. *)
Fixpoint distinct_keys (v : json) : bool :=
  match v with
  | JNull | JBool _ | JInt _ | JStr _ => true
  | JArr items => forallb distinct_keys items
  | JObj fields =>
      nodupb (map fst fields)
      && forallb (fun kv : string * json => let (_, x) := kv in distinct_keys x)
                 fields
  end.

(** [v2] is [v1] with the items of its objects, at any depth, in
    another order. *)
Inductive reordered : json -> json -> Prop :=
| reordered_same v : reordered v v
| reordered_arr l1 l2 :
    Forall2 reordered l1 l2 -> reordered (JArr l1) (JArr l2)
| reordered_obj f1 f f2 :
    Forall2 (fun a b : string * json =>
               fst a = fst b /\ reordered (snd a) (snd b)) f1 f ->
    Permutation f f2 ->
    reordered (JObj f1) (JObj f2).

(** More tampering behind the logger's back:
    [UPDATE audit_logs SET <column> = ... WHERE id = k], for a column
    that [f] rewrites. *)
Definition overwrite (k : uuid) (f : audit_log -> audit_log) (rows : table)
  : table :=
  map (fun r => if log_id r =? k then f r else r) rows.

Definition with_hash (h : string) (r : audit_log) : audit_log :=
  AuditLog (log_id r) (actor_id r) (action r) (resource_type r)
           (resource_id r) (old_values r) (new_values r) (previous_hash r)
           h (created_at r).

Definition with_action (a : string) (r : audit_log) : audit_log :=
  AuditLog (log_id r) (actor_id r) a (resource_type r)
           (resource_id r) (old_values r) (new_values r) (previous_hash r)
           (hash r) (created_at r).

(** The digest of a row as the verifier recomputes it. *)
Definition recomputed (self : AuditLogger) (r : audit_log) : string :=
  _compute_hash self (previous_hash r) (row_log_data r).

Definition long_action : string :=
  "this action name is much longer than fifty characters".

(* ================================================================= *)
(** ** The methods as they are called: pool, connection, resources *)

(** [psycopg2.pool.SimpleConnectionPool]: the two bounds, how many
    connections lie in the pool, how many are handed out, and whether
    [closeall] was called. *)
Record pool_state : Type := Pool {
  minconn : nat;
  maxconn : nat;
  idle : nat;
  used : nat;
  closed : bool
}.

(** What a method of the logger can raise: an error of the pool, a
    connection that cannot be opened, an error of the database, or
    what the block under [track_changes] raises. *)
Inductive error : Type :=
| PoolError (msg : string)
| ConnectError
| DatabaseError (e : exn)
| BlockError (msg : string).

Inductive result (A : Type) : Type :=
| Done (a : A)
| Failed (e : error).
Arguments Done {A} a.
Arguments Failed {A} e.

(** What [SELECT row_to_json(t) FROM <table> t WHERE id = ...] finds
    in the tables of the application; the statement is taken to read
    only ([resource_type] is the name of a table). *)
Inductive lookup : Type :=
| RowFound (j : json)
| NoSuchRow
| QueryError.

Definition store : Type := string -> string -> lookup.

Record system : Type := System {
  pool : pool_state;
  audit_logs : table;
  resources : store
}.

(** [pool.getconn()]; [reachable] tells whether a new connection can
    be opened now. *)
Definition getconn (reachable : bool) (p : pool_state)
  : result unit * pool_state :=
  if closed p then (Failed (PoolError "connection pool is closed"), p)
  else if Nat.ltb 0 (idle p)
  then (Done tt, Pool (minconn p) (maxconn p) (idle p - 1) (S (used p)) false)
  else if Nat.eqb (used p) (maxconn p)
  then (Failed (PoolError "connection pool exhausted"), p)
  else if reachable
  then (Done tt, Pool (minconn p) (maxconn p) (idle p) (S (used p)) false)
  else (Failed ConnectError, p).

(** [pool.putconn(conn)] for a connection that is open: it goes back
    into the pool, or is closed when the pool holds [minconn]
    connections already. *)
Definition putconn (p : pool_state) : result unit * pool_state :=
  if closed p then (Failed (PoolError "connection pool is closed"), p)
  else
    (Done tt,
     Pool (minconn p) (maxconn p)
          (if Nat.ltb (idle p) (minconn p) then S (idle p) else idle p)
          (used p - 1) false).

(** [conn = self._get_conn()], [try: body], [finally:
    self._return_conn(conn)].  The connection starts with no open
    transaction; what the body did not commit is rolled back when the
    connection goes back. *)
Definition with_connection {A} (reachable : bool) (body : db A)
    (s : system) : result A * system :=
  match getconn reachable (pool s) with
  | (Failed err, _) => (Failed err, s)
  | (Done _, p1) =>
      let (r, c) := body (Conn (audit_logs s) []) in
      let (back, p2) := putconn p1 in
      let s' := System p2 (committed c) (resources s) in
      match back, r with
      | Failed err, _ => (Failed err, s')
      | Done _, Return a => (Done a, s')
      | Done _, Raise x => (Failed (DatabaseError x), s')
      end
  end.

(** The public methods, from [_get_conn] to [_return_conn]. *)
Definition call_log_change (self : AuditLogger) (reachable : bool)
    (e : environment) (actor_id : option string) (action : string)
    (resource_type : option string) (resource_id : string)
    (old_val new_val : json) : system -> result uuid * system :=
  with_connection reachable
    (log_change self e actor_id action resource_type resource_id
                old_val new_val).

Definition call_verify_chain_integrity (self : AuditLogger)
    (reachable : bool) : system -> result (bool * list broken_link) * system :=
  with_connection reachable
    (fun c => (Return (verify_chain_integrity self (visible c)), c)).

(** The [SELECT] of [get_resource_history] on a connection: the driver
    refuses a text with the code point 0, and the server a
    [resource_id] that it cannot read as a UUID. *)
Definition select_history (resource_type : option string)
    (resource_id : string) (limit : nat) : db (list history_entry) :=
  fun c =>
    if match resource_type with Some t => has_nul t | None => false end
    then (Raise (NulCharacter "resource_type"), c)
    else if has_nul resource_id
    then (Raise (NulCharacter "resource_id"), c)
    else
      match uuid_in resource_id with
      | None => (Raise (InvalidTextRepresentation "resource_id"), c)
      | Some _ =>
          (Return (get_resource_history (visible c) resource_type
                                        resource_id limit), c)
      end.

Definition call_get_resource_history (reachable : bool)
    (resource_type : option string) (resource_id : string) (limit : nat)
  : system -> result (list history_entry) * system :=
  with_connection reachable (select_history resource_type resource_id limit).

(** [pool.closeall()] *)
Definition close (s : system) : result unit * system :=
  if closed (pool s)
  then (Failed (PoolError "connection pool is closed"), s)
  else (Done tt,
        System (Pool (minconn (pool s)) (maxconn (pool s))
                     (idle (pool s)) (used (pool s)) true)
               (audit_logs s) (resources s)).

(** [AuditLogger(...)]: the pool opens [min_conn] connections, then
    [_init_db] creates the table unless it exists.  [db] is the table
    found in the database, if any. *)
Definition __init__ (secret : string) (min_conn max_conn : nat)
    (reachable : bool) (db : option table) (app : store)
  : result (AuditLogger * system) :=
  if Nat.ltb 0 min_conn && negb reachable then Failed ConnectError
  else
    let rows := match db with Some t => t | None => [] end in
    let s := System (Pool min_conn max_conn min_conn 0 false) rows app in
    match with_connection reachable (fun c => (Return tt, c)) s with
    | (Failed err, _) => Failed err
    | (Done _, s') => Done (Logger secret, s')
    end.

(** [str.lower()] on code points below 256. *)
Definition lower_char (c : ascii) : ascii :=
  let z := Z.of_N (N_of_ascii c) in
  if (((65 <=? z) && (z <=? 90))
      || ((192 <=? z) && (z <=? 222) && negb (z =? 215)))%Z
  then ascii_of_N (Z.to_N (z + 32))
  else c.

Fixpoint lower (s : string) : string :=
  match s with
  | EmptyString => EmptyString
  | String c s' => String (lower_char c) (lower s')
  end.

(** [_get_current_state]: the row of the resource as a dictionary;
    [None] when there is no such row and when anything fails (no
    table of that name, a type that is [None]). *)
Definition _get_current_state (reachable : bool)
    (resource_type : option string) (resource_id : string)
    (s : system) : result json * system :=
  with_connection reachable
    (fun c =>
       (Return match resource_type with
               | None => JNull
               | Some t =>
                   match resources s (lower t) resource_id with
                   | RowFound j => j
                   | NoSuchRow | QueryError => JNull
                   end
               end, c))
    s.

Fixpoint assoc (k : string) (l : list (string * json)) : option json :=
  match l with
  | [] => None
  | (k', x) :: l' => if k' =? k then Some x else assoc k l'
  end.

(** Python's [==] on these values: [True] equals 1, two lists are
    compared item by item, two dictionaries key by key. *)
Fixpoint py_eq (a b : json) {struct a} : bool :=
  match a, b with
  | JNull, JNull => true
  | JBool x, JBool y => Bool.eqb x y
  | JBool x, JInt n | JInt n, JBool x => (n =? (if x then 1 else 0))%Z
  | JInt n, JInt m => (n =? m)%Z
  | JStr s, JStr t => (s =? t)
  | JArr l, JArr m =>
      (fix items (l m : list json) {struct l} : bool :=
         match l, m with
         | [], [] => true
         | x :: l', y :: m' => py_eq x y && items l' m'
         | _, _ => false
         end) l m
  | JObj f, JObj g =>
      Nat.eqb (List.length f) (List.length g)
      && forallb (fun kv : string * json =>
                    let (k, x) := kv in
                    match assoc k g with
                    | Some y => py_eq x y
                    | None => false
                    end) f
  | _, _ => false
  end.

(** The block under [with logger.track_changes(...)]: what it does to
    the tables of the application, and what it raises, if anything. *)
Definition block : Type := store -> option string * store.

(** [track_changes], a context manager: the state before the block,
    the block, the state after it, and a call of [log_change] when the
    two states differ. *)
Definition track_changes (self : AuditLogger) (r1 r2 r3 : bool)
    (e : environment) (actor_id : option string)
    (resource_type : option string) (resource_id : string) (body : block)
    (s : system) : result unit * system :=
  match _get_current_state r1 resource_type resource_id s with
  | (Failed err, s1) => (Failed err, s1)
  | (Done old_val, s1) =>
      let (raised, app) := body (resources s1) in
      let s2 := System (pool s1) (audit_logs s1) app in
      match raised with
      | Some msg => (Failed (BlockError msg), s2)
      | None =>
          match _get_current_state r2 resource_type resource_id s2 with
          | (Failed err, s3) => (Failed err, s3)
          | (Done new_val, s3) =>
              if py_eq old_val new_val then (Done tt, s3)
              else
                match call_log_change self r3 e actor_id "UPDATE"
                        resource_type resource_id old_val new_val s3 with
                | (Failed err, s4) => (Failed err, s4)
                | (Done _, s4) => (Done tt, s4)
                end
          end
      end
  end.

(** A call of one of the methods, with what it takes from outside,
    and calls made one after the other. *)
Inductive operation : Type :=
| LogChange (reachable : bool) (q : request)
| Verify (reachable : bool)
| History (reachable : bool) (rtype : option string) (rid : string)
          (limit : nat)
| CurrentState (reachable : bool) (rtype : option string) (rid : string)
| Track (r1 r2 r3 : bool) (e : environment) (actor : option string)
        (rtype : option string) (rid : string) (body : block).

Definition raised {A} (r : result A) : option error :=
  match r with
  | Done _ => None
  | Failed err => Some err
  end.

Definition perform (self : AuditLogger) (op : operation) (s : system)
  : option error * system :=
  match op with
  | LogChange reachable q =>
      let (r, s') :=
        call_log_change self reachable (rq_env q) (rq_actor_id q)
          (rq_action q) (rq_resource_type q) (rq_resource_id q)
          (rq_old_val q) (rq_new_val q) s in
      (raised r, s')
  | Verify reachable =>
      let (r, s') := call_verify_chain_integrity self reachable s in
      (raised r, s')
  | History reachable rtype rid limit =>
      let (r, s') := call_get_resource_history reachable rtype rid limit s in
      (raised r, s')
  | CurrentState reachable rtype rid =>
      let (r, s') := _get_current_state reachable rtype rid s in
      (raised r, s')
  | Track r1 r2 r3 e actor rtype rid body =>
      let (r, s') := track_changes self r1 r2 r3 e actor rtype rid body s in
      (raised r, s')
  end.

Fixpoint perform_all (self : AuditLogger) (ops : list operation)
    (s : system) : list (option error) * system :=
  match ops with
  | [] => ([], s)
  | op :: ops' =>
      let (r, s1) := perform self op s in
      let (rs, s2) := perform_all self ops' s1 in
      (r :: rs, s2)
  end.

Definition is_pool_error (r : option error) : bool :=
  match r with
  | Some (PoolError _) => true
  | _ => false
  end.

Definition is_connect_error (r : option error) : bool :=
  match r with
  | Some ConnectError => true
  | _ => false
  end.

(** The pool is open and holds a connection, as after the constructor
    with [min_conn] at least 1. *)
Definition pool_ready (p : pool_state) : Prop :=
  closed p = false /\ (0 < idle p)%nat /\ (idle p <= minconn p)%nat.

(** The state of the resource as [_get_current_state] reports it. *)
Definition state_of (app : store) (resource_type : option string)
    (resource_id : string) : json :=
  match resource_type with
  | None => JNull
  | Some t =>
      match app (lower t) resource_id with
      | RowFound j => j
      | NoSuchRow | QueryError => JNull
      end
  end.

(** What the constructor leaves, and every call keeps: the pool is
    open, no connection is handed out, the pool holds at most
    [minconn] connections and at least one if [minconn] is not 0. *)
Definition pool_at_rest (p : pool_state) : Prop :=
  closed p = false /\ used p = 0%nat /\ (idle p <= minconn p)%nat /\
  ((0 < minconn p)%nat -> (0 < idle p)%nat).

(** A connection can be had: one lies in the pool, or one may be
    opened. *)
Definition has_capacity (p : pool_state) : Prop :=
  (0 < idle p)%nat \/ maxconn p <> 0%nat.

(** An application without any table, and a logger at rest over the
    chain of three entries. *)
Definition no_tables : store := fun _ _ => QueryError.

Definition system_at_rest : system :=
  System (Pool 1 10 1 0 false) Scenario.chain3 no_tables.


(** An application table [invoice] with one row, and blocks that
    replace the row or fail. *)
Definition invoices_with (state : json) : store :=
  fun t id =>
    if (t =? "invoice")%string then
      if (id =? Scenario.inv1)%string then RowFound state else NoSuchRow
    else QueryError.

Definition set_invoice (state : json) : block :=
  fun _ => (None, invoices_with state).

Definition failing_block (msg : string) : block :=
  fun app => (Some msg, app).

Definition billing_at_rest : system :=
  System (Pool 1 10 1 0 false) Scenario.chain3
         (invoices_with Scenario.draft).

(** The instant [ORDER BY created_at] compares, and tables in which
    it tells any two rows apart. *)
Definition created_instant (r : audit_log) : option Z :=
  option_map instant (created_at r).

Definition distinct_times (rows : table) : Prop :=
  NoDup (map created_instant rows).

(** What the [SELECT] of [get_resource_history] may return: the server
    is free in the order of rows with the same [created_at]. *)
Definition may_return (rows : table) (resource_type : option string)
    (resource_id : string) (limit : nat) (result : list history_entry)
  : Prop :=
  exists ordered,
    Permutation ordered (filter (matches resource_type resource_id) rows) /\
    StronglySorted (fun a b => created_desc a b = true) ordered /\
    result = map history_of_row (firstn limit ordered).

(** A call during which neither the server nor the network fails. *)
Definition fault_free (op : operation) : Prop :=
  match op with
  | LogChange _ q => fault (rq_env q) = None
  | Track _ _ _ e _ _ _ _ => fault e = None
  | Verify _ | History _ _ _ _ | CurrentState _ _ _ => True
  end.
(* ================================================================= *)
(** ** The digest of a chain message *)

Lemma compute_hash_unfold self p data :
  _compute_hash self p data
  = hmac_sha256_hexdigest (encode (secret_key self))
                          (encode (chain_message p data)).
Proof. reflexivity. Qed.

Lemma be_bytes_length n x : List.length (SHA256.be_bytes n x) = n.
Proof. induction n as [|n IH]; simpl; [reflexivity | now rewrite IH]. Qed.

Lemma hexlify_length bs :
  String.length (hexlify bs) = (2 * List.length bs)%nat.
Proof. induction bs as [|b bs IH]; simpl; [reflexivity | rewrite IH; lia]. Qed.

Lemma sha256_digest_length msg : List.length (SHA256.digest msg) = 32%nat.
Proof.
  unfold SHA256.digest, SHA256.state_bytes.
  rewrite !length_app, !be_bytes_length. reflexivity.
Qed.

(** A digest is 64 characters long; it is never the text [genesis]. *)
Lemma compute_hash_length self p data :
  String.length (_compute_hash self p data) = 64%nat.
Proof.
  unfold _compute_hash, hmac_sha256_hexdigest, HMAC.digest.
  rewrite hexlify_length, sha256_digest_length. reflexivity.
Qed.

Lemma compute_hash_not_genesis self p data :
  _compute_hash self p data <> "genesis".
Proof.
  intros E. apply (f_equal String.length) in E.
  rewrite compute_hash_length in E. discriminate.
Qed.

(** Digests are evaluated as a whole, never unfolded step by step. *)
Arguments _compute_hash : simpl never.
Arguments hmac_sha256_hexdigest : simpl never.
Opaque _compute_hash hmac_sha256_hexdigest.

(* ================================================================= *)
(** ** Test vectors for the digests *)

Example round_constants :
  List.length SHA256.K = 64%nat /\
  nth 0 SHA256.K 0%Z = 0x428a2f98%Z /\ nth 63 SHA256.K 0%Z = 0xc67178f2%Z /\
  SHA256.sa SHA256.H0 = 0x6a09e667%Z /\ SHA256.sh SHA256.H0 = 0x5be0cd19%Z.
Proof. repeat split. Qed.

Example sha256_abc :
  sha256_hexdigest "abc"
  = "ba7816bf8f01cfea414140de5dae2223b00361a396177a9cb410ff61f20015ad".
Proof. vm_compute. reflexivity. Qed.

Example sha256_empty :
  sha256_hexdigest ""
  = "e3b0c44298fc1c149afbf4c8996fb92427ae41e4649b934ca495991b7852b855".
Proof. vm_compute. reflexivity. Qed.

Example sha256_two_blocks :
  sha256_hexdigest "abcdbcdecdefdefgefghfghighijhijkijkljklmklmnlmnomnopnopq"
  = "248d6a61d20638b8e5c026930c3e6039a33ce45964ff2167f6ecedd419db06c1".
Proof. vm_compute. reflexivity. Qed.

(** RFC 4231, test case 2. *)
Example hmac_rfc4231_2 :
  hmac_sha256_hexdigest (encode "Jefe") (encode "what do ya want for nothing?")
  = "5bdcc146bf60754e6a042426089575c75a003f089d2739839dec58b964ec3843".
Proof. vm_compute. reflexivity. Qed.

(* ================================================================= *)
(** ** Strings *)

Lemma append_assoc (a b c : string) : (a ++ b) ++ c = a ++ (b ++ c).
Proof. induction a as [|x a IH]; simpl; [reflexivity | now rewrite IH]. Qed.

Lemma append_length (a b : string) :
  String.length (a ++ b) = (String.length a + String.length b)%nat.
Proof. induction a as [|x a IH]; simpl; [reflexivity | now rewrite IH]. Qed.

Lemma append_inv_head (p a b : string) : p ++ a = p ++ b -> a = b.
Proof.
  induction p as [|x p IH]; simpl; intros H; [exact H|].
  injection H as H. now apply IH.
Qed.

Lemma append_inv_tail (a b t : string) : a ++ t = b ++ t -> a = b.
Proof.
  revert b. induction a as [|x a IH]; intros [|y b] H; simpl in H.
  - reflexivity.
  - apply (f_equal String.length) in H. simpl in H.
    rewrite append_length in H. lia.
  - apply (f_equal String.length) in H. simpl in H.
    rewrite append_length in H. lia.
  - injection H as Hx H. subst y. f_equal. now apply IH.
Qed.

(* ================================================================= *)
(** ** Sorting *)

Section SortFacts.
Context {A : Type} (leb : A -> A -> bool).

Lemma insert_perm x l : Permutation (insert leb x l) (x :: l).
Proof.
  induction l as [|y l IH]; simpl; [reflexivity|].
  destruct (leb x y); [reflexivity|].
  rewrite IH. apply perm_swap.
Qed.

Lemma sort_perm l : Permutation (sort leb l) l.
Proof.
  induction l as [|x l IH]; simpl; [reflexivity|].
  rewrite insert_perm. now constructor.
Qed.

Lemma sort_in x l : In x (sort leb l) <-> In x l.
Proof.
  split; apply Permutation_in; [|symmetry]; apply sort_perm.
Qed.

Lemma sort_length l : List.length (sort leb l) = List.length l.
Proof. apply Permutation_length, sort_perm. Qed.

(** A list already in order is left as it is. *)
Lemma sort_sorted_id l :
  Sorted (fun a b => leb a b = true) l -> sort leb l = l.
Proof.
  induction 1 as [|x l Hs IH Hd]; simpl; [reflexivity|].
  rewrite IH. destruct Hd as [|y l Hxy]; simpl; [reflexivity|].
  now rewrite Hxy.
Qed.

(** An element that no element of [l] may precede goes to the
    front. *)
Lemma sort_snoc_front x l :
  Forall (fun y => leb y x = false) l ->
  sort leb (l ++ [x]) = x :: sort leb l.
Proof.
  induction 1 as [|y l Hy Hl IH]; simpl; [reflexivity|].
  rewrite IH. simpl. now rewrite Hy.
Qed.

Lemma sort_map (f : A -> A) l :
  (forall x y, leb (f x) (f y) = leb x y) ->
  sort leb (map f l) = map f (sort leb l).
Proof.
  intros Hf. induction l as [|x l IH]; simpl; [reflexivity|].
  rewrite IH. generalize (sort leb l) as s.
  induction s as [|y s IHs]; simpl; [reflexivity|].
  rewrite Hf. destruct (leb x y); simpl; [reflexivity|].
  now rewrite IHs.
Qed.

Hypothesis leb_total : forall a b, leb a b = true \/ leb b a = true.
Hypothesis leb_trans :
  forall a b c, leb a b = true -> leb b c = true -> leb a c = true.

Lemma insert_sorted x l :
  StronglySorted (fun a b => leb a b = true) l ->
  StronglySorted (fun a b => leb a b = true) (insert leb x l).
Proof.
  induction 1 as [|y l Hs IH Hy]; simpl.
  - repeat constructor.
  - destruct (leb x y) eqn:Hxy.
    + constructor; [now constructor|].
      constructor; [exact Hxy|].
      eapply Forall_impl; [|exact Hy]. intros z Hz. eauto.
    + constructor; [exact IH|].
      assert (Hyx : leb y x = true)
        by (destruct (leb_total x y); congruence).
      eapply Permutation_Forall.
      * symmetry. apply insert_perm.
      * now constructor.
Qed.

Lemma sort_sorted l : StronglySorted (fun a b => leb a b = true) (sort leb l).
Proof.
  induction l as [|x l IH]; simpl; [constructor | now apply insert_sorted].
Qed.
End SortFacts.

Lemma timestamp_leb_total a b :
  timestamp_leb a b = true \/ timestamp_leb b a = true.
Proof.
  destruct a as [x|], b as [y|]; simpl; auto.
  destruct (Z.leb_spec (instant x) (instant y)); [now left|right].
  apply Z.leb_le. lia.
Qed.

Lemma timestamp_leb_trans a b c :
  timestamp_leb a b = true -> timestamp_leb b c = true ->
  timestamp_leb a c = true.
Proof.
  destruct a as [x|], b as [y|], c as [z|]; simpl; try congruence.
  rewrite !Z.leb_le. lia.
Qed.

Lemma created_asc_total a b : created_asc a b = true \/ created_asc b a = true.
Proof. apply timestamp_leb_total. Qed.

Lemma created_asc_trans a b c :
  created_asc a b = true -> created_asc b c = true -> created_asc a c = true.
Proof. apply timestamp_leb_trans. Qed.

Lemma created_desc_total a b :
  created_desc a b = true \/ created_desc b a = true.
Proof. apply timestamp_leb_total. Qed.

Lemma created_desc_trans a b c :
  created_desc a b = true -> created_desc b c = true ->
  created_desc a c = true.
Proof. unfold created_desc. intros; eapply timestamp_leb_trans; eauto. Qed.

(* ================================================================= *)
(** ** The verifier, row by row *)

Lemma verify_loop_breaks self logs acc p :
  fst (verify_loop self logs acc p)
  = (acc ++ flat_map (row_verdict self) logs)%list.
Proof.
  revert acc p. induction logs as [|log logs IH]; intros acc p.
  - simpl. now rewrite app_nil_r.
  - destruct log as [id a act rt rid o n ph h ts].
    cbn [verify_loop flat_map]. rewrite IH.
    unfold row_verdict at 2. cbn [previous_hash hash log_id].
    destruct (_ =? h)%string; cbn [app].
    + reflexivity.
    + now rewrite <- app_assoc.
Qed.

Lemma verify_chain_integrity_breaks self rows :
  verify_chain_integrity self rows
  = (Nat.eqb (List.length (flat_map (row_verdict self) (sort created_asc rows))) 0,
     flat_map (row_verdict self) (sort created_asc rows)).
Proof.
  unfold verify_chain_integrity.
  destruct (sort created_asc rows) as [|r l] eqn:E; [reflexivity|].
  now rewrite verify_loop_breaks.
Qed.

Lemma flat_map_nil_iff {A B} (f : A -> list B) l :
  flat_map f l = [] <-> forall x, In x l -> f x = [].
Proof.
  induction l as [|y l IH]; simpl.
  - split; [intros _ x [] | reflexivity].
  - split.
    + intros H. apply app_eq_nil in H as [Hy Hl].
      intros x [<-|Hx]; [exact Hy | now apply IH].
    + intros H. rewrite (H y (or_introl eq_refl)). simpl.
      apply IH. intros x Hx. apply H. now right.
Qed.

Lemma valid_chain_iff self rows :
  valid_chain self rows <-> forall r, In r rows -> row_verdict self r = [].
Proof.
  unfold valid_chain. rewrite verify_chain_integrity_breaks. split.
  - intros H r Hr. injection H as _ H.
    rewrite flat_map_nil_iff in H. apply H. now apply sort_in.
  - intros H.
    assert (E : flat_map (row_verdict self) (sort created_asc rows) = []).
    { apply flat_map_nil_iff. intros r Hr. apply H.
      now apply (sort_in created_asc). }
    now rewrite E.
Qed.

(* ================================================================= *)
(** ** Texts that a [UUID] column reads *)

Example uuid_in_forms :
  let id := Some "a0eebc99-9c0b-4ef8-bb6d-6bb9bd380a11" in
  uuid_in "a0eebc99-9c0b-4ef8-bb6d-6bb9bd380a11" = id /\
  uuid_in "A0EEBC99-9C0B-4EF8-BB6D-6BB9BD380A11" = id /\
  uuid_in "{a0eebc99-9c0b-4ef8-bb6d-6bb9bd380a11}" = id /\
  uuid_in "a0eebc999c0b4ef8bb6d6bb9bd380a11" = id /\
  uuid_in "a0ee-bc99-9c0b-4ef8-bb6d-6bb9-bd38-0a11" = id /\
  uuid_in "{a0eebc99-9c0b4ef8-bb6d6bb9-bd380a11}" = id.
Proof. vm_compute. repeat split. Qed.

Example uuid_in_rejects :
  uuid_in "unknown" = None /\ uuid_in "" = None /\
  uuid_in "a0eebc99-9c0b-4ef8-bb6d-6bb9bd380a1" = None /\
  uuid_in "a0eebc99-9c0b-4ef8-bb6d-6bb9bd380a111" = None /\
  uuid_in "a0eebc99-9c0b-4ef8-bb6d-6bb9bd380a11}" = None /\
  uuid_in "{a0eebc99-9c0b-4ef8-bb6d-6bb9bd380a11" = None /\
  uuid_in "a-0eebc99-9c0b-4ef8-bb6d-6bb9bd380a11" = None /\
  uuid_in "a0eebc99--9c0b-4ef8-bb6d-6bb9bd380a11" = None /\
  uuid_in "g0eebc99-9c0b-4ef8-bb6d-6bb9bd380a11" = None /\
  uuid_in " a0eebc99-9c0b-4ef8-bb6d-6bb9bd380a11" = None.
Proof. vm_compute. repeat split. Qed.

(* ================================================================= *)
(** ** What a call of [log_change] does to the connection *)

Lemma log_change_returns self e actor act rtype rid old new c id c' :
  log_change self e actor act rtype rid old new c = (Return id, c') ->
  exists a act' rtype' row,
    actor = Some a /\ varchar 50 act = Some act' /\
    varchar_null 50 rtype = Some rtype' /\
    (exists a' rid',
        uuid_in a = Some a' /\ uuid_in rid = Some rid' /\
        row = AuditLog (fresh_uuid e) a' act' rtype' rid' (to_jsonb old)
                (to_jsonb new) (Some (tip_hash (visible c)))
                (_compute_hash self (Some (tip_hash (visible c)))
                   (log_data_dict (py_str actor) act
                      (py_str rtype ++ ":" ++ rid)
                      (JStr (isoformat (utcnow e))) old new))
                (Some (current_timestamp e))) /\
    id = fresh_uuid e /\
    c' = Conn (visible c ++ [row])%list [] /\
    existsb (fun r => hash r =? hash row) (visible c) = false /\
    existsb (fun r => log_id r =? fresh_uuid e) (visible c) = false.
Proof.
  unfold log_change, try_except, latest_hash, append_to, bind, ret,
    select_latest_hash, insert_audit_log, commit, rollback_and_reraise,
    rollback, raise, tip_hash.
  intros H. cbv beta in H.
  destruct (fails_at e SelectLatest); [discriminate|].
  destruct (fails_at e InsertLog); [discriminate|].
  destruct (match actor with Some a => has_nul a | None => false end);
    [discriminate|].
  destruct (has_nul act); [discriminate|].
  destruct (match rtype with Some t => has_nul t | None => false end);
    [discriminate|].
  destruct (has_nul rid); [discriminate|].
  destruct actor as [a|]; cbn [uuid_null option_map] in H.
  2:{ destruct (uuid_in rid); [|discriminate].
      destruct (jsonb_col_rejects (to_jsonb old)); [discriminate|].
      destruct (jsonb_col_rejects (to_jsonb new)); [discriminate|].
      destruct (varchar 50 act); [|discriminate].
      destruct (varchar_null 50 rtype); discriminate. }
  destruct (uuid_in a) as [a'|] eqn:Ea; cbn [option_map] in H;
    [|discriminate].
  destruct (uuid_in rid) as [rid'|] eqn:Er; [|discriminate].
  destruct (jsonb_col_rejects (to_jsonb old)); [discriminate|].
  destruct (jsonb_col_rejects (to_jsonb new)); [discriminate|].
  destruct (varchar 50 act) as [act'|]; [|discriminate].
  destruct (varchar_null 50 rtype) as [rtype'|]; [|discriminate].
  destruct (head (sort created_desc (visible c))) as [tip|] eqn:Etip;
    cbn [option_map] in H;
    (destruct (existsb (fun r => log_id r =? fresh_uuid e) (visible c)) eqn:Eid;
       [discriminate|]);
    match type of H with
    | context [existsb ?f (visible c)] =>
        destruct (existsb f (visible c)) eqn:Eh; [discriminate|]
    end;
    cbn [committed pending] in H;
    (destruct (fails_at e Commit); [discriminate|]);
    injection H as <- <-;
    (exists a, act', rtype'; eexists;
     split; [reflexivity|]; split; [reflexivity|]; split; [reflexivity|];
     split; [exists a', rid'; split; [first [exact Ea | reflexivity]|];
             split; [first [exact Er | reflexivity]|]; reflexivity|];
     split; [reflexivity|];
     split; [|split; [exact Eh | first [exact Eid | reflexivity]]]);
    unfold visible; now rewrite app_assoc.
Qed.

Lemma log_change_raises self e actor act rtype rid old new c err c' :
  log_change self e actor act rtype rid old new c = (Raise err, c') ->
  c' = Conn (committed c) [].
Proof.
  unfold log_change, try_except, latest_hash, append_to, bind, ret,
    select_latest_hash, insert_audit_log, commit, rollback_and_reraise,
    rollback, raise.
  intros H. cbv beta in H.
  repeat match type of H with
         | context [if ?b then _ else _] =>
             destruct b; cbn [committed pending fst snd] in H
         | context [match ?x with Some _ => _ | None => _ end] =>
             destruct x; cbn [committed pending fst snd option_map] in H
         end;
    try discriminate; now injection H as _ <-.
Qed.

(* ================================================================= *)
(** ** Genesis, atomicity *)

Lemma scenario_chain3_valid : valid_chain Scenario.logger Scenario.chain3.
Proof. vm_compute. reflexivity. Qed.

(** C6. The first entry committed to an empty table is chained to
    ["genesis"], and the verifier accepts the empty table with an empty
    list of broken links. *)
Theorem genesis_behaviour :
  (forall self e actor act rtype rid old new id c',
      log_change self e actor act rtype rid old new (Conn [] [])
      = (Return id, c') ->
      exists row,
        committed c' = [row] /\ log_id row = id /\
        previous_hash row = Some "genesis") /\
  (forall self, verify_chain_integrity self [] = (true, [])).
Proof.
  split; [|reflexivity].
  intros self e actor act rtype rid old new id c' H.
  apply log_change_returns in H
    as (a & act' & rtype' & row & _ & _ & _ & (a' & rid' & _ & _ & Hrow)
        & Hid & Hc & _).
  exists row. subst c' row id. cbn [committed log_id previous_hash].
  repeat split.
Qed.

Lemma genesis_behaviour_witness :
  log_change Scenario.logger (Scenario.env_at 0 Scenario.id_a None)
    (Some Scenario.u1) "CREATE" (Some "INVOICE") Scenario.inv1
    JNull Scenario.draft (Conn [] [])
  = (Return Scenario.id_a, Conn [Scenario.appended_a] []) /\
  exists row,
    committed (Conn [Scenario.appended_a] []) = [row] /\
    log_id row = Scenario.id_a /\ previous_hash row = Some "genesis".
Proof.
  assert (H : log_change Scenario.logger
                (Scenario.env_at 0 Scenario.id_a None)
                (Some Scenario.u1) "CREATE" (Some "INVOICE") Scenario.inv1
                JNull Scenario.draft (Conn [] [])
              = (Return Scenario.id_a, Conn [Scenario.appended_a] []))
    by (vm_compute; reflexivity).
  split; [exact H|].
  exact (proj1 genesis_behaviour _ _ _ _ _ _ _ _ _ _ H).
Defined.

(** C9. A call of [log_change] that raises, at whatever statement,
    leaves the committed table as it was and no inserted row behind in
    the connection. *)
Theorem append_atomicity self e actor act rtype rid old new c err c' :
  log_change self e actor act rtype rid old new c = (Raise err, c') ->
  committed c' = committed c /\ pending c' = [] /\
  tip_hash (committed c') = tip_hash (committed c).
Proof.
  intros H. apply log_change_raises in H. subst c'. cbn. auto.
Qed.

Lemma append_atomicity_witness :
  let c := Conn [Scenario.entry1] [] in
  log_change Scenario.logger
    (Scenario.env_at 1 Scenario.id_b (Some Commit))
    (Some Scenario.u1) "UPDATE" (Some "INVOICE") Scenario.inv1
    Scenario.draft Scenario.paid c
  = (Raise (OperationalError Commit), c) /\
  (committed c = committed c /\ pending c = [] /\
   tip_hash (committed c) = tip_hash (committed c)).
Proof.
  assert (H : log_change Scenario.logger
                (Scenario.env_at 1 Scenario.id_b (Some Commit))
                (Some Scenario.u1) "UPDATE" (Some "INVOICE") Scenario.inv1
                Scenario.draft Scenario.paid (Conn [Scenario.entry1] [])
              = (Raise (OperationalError Commit), Conn [Scenario.entry1] []))
    by (vm_compute; reflexivity).
  split; [exact H|].
  exact (append_atomicity _ _ _ _ _ _ _ _ _ _ _ H).
Defined.

(* ================================================================= *)
(** ** The verdict on a row depends on that row alone *)

Lemma valid_chain_incl self rows rows' :
  incl rows' rows -> valid_chain self rows -> valid_chain self rows'.
Proof.
  rewrite !valid_chain_iff. intros Hi H r Hr. apply H, Hi, Hr.
Qed.

(** C7. The list of broken links is the concatenation, in the order of
    the scan, of what each row yields by itself; the running variable
    [previous_hash] of the loop has no influence on it; hence deleting
    rows from a table that verifies leaves a table that verifies. *)
Theorem verdict_from_own_row_only :
  (forall self rows,
      verify_chain_integrity self rows
      = (Nat.eqb (List.length (flat_map (row_verdict self)
                                        (sort created_asc rows))) 0,
         flat_map (row_verdict self) (sort created_asc rows))) /\
  (forall self logs acc p q,
      fst (verify_loop self logs acc p) = fst (verify_loop self logs acc q)) /\
  (forall self rows p,
      verify_chain_integrity self rows = (true, []) ->
      verify_chain_integrity self (delete_where p rows) = (true, [])).
Proof.
  split; [exact verify_chain_integrity_breaks|]. split.
  - intros. now rewrite !verify_loop_breaks.
  - intros self rows p H. apply (valid_chain_incl self rows); [|exact H].
    intros r Hr. unfold delete_where in Hr.
    apply filter_In in Hr. tauto.
Qed.

Lemma verdict_from_own_row_only_witness :
  verify_chain_integrity Scenario.logger Scenario.chain3 = (true, []) /\
  verify_chain_integrity Scenario.logger
    (delete_where (fun r => log_id r =? Scenario.id_b) Scenario.chain3)
  = (true, []).
Proof.
  assert (H : verify_chain_integrity Scenario.logger Scenario.chain3
              = (true, []))
    by (vm_compute; reflexivity).
  split; [exact H|].
  exact (proj2 (proj2 verdict_from_own_row_only) _ _ _ H).
Defined.

(** C3 (the code departs from it). With the second of three entries
    deleted, the third entry is still compared against the digest
    taken from its own [previous_hash] column, so nothing is reported;
    computed from the running link, as the claim has it, the expected
    link of the third entry differs from the stored one. *)
Theorem verifier_ignores_running_link :
  let rows := delete_where (fun r => log_id r =? Scenario.id_b)
                           Scenario.chain3 in
  rows = [Scenario.entry1; Scenario.entry3] /\
  previous_hash Scenario.entry3 <> Some (hash Scenario.entry1) /\
  verify_chain_integrity Scenario.logger rows = (true, []) /\
  running_link_verify Scenario.logger rows
  = (false,
     [BrokenLink Scenario.id_c
        "fc6f6df2991d47262e4b16568b7cebf7a61cbb156c9b0e407155f9dc6cc0b834"
        Scenario.hash3]).
Proof.
  split; [vm_compute; reflexivity|].
  split; [vm_compute; discriminate|].
  split; vm_compute; reflexivity.
Qed.

(** C1 (the code departs from it). After the two appends of the
    scenario the entries are chained as expected, but the verifier
    reports both of them: the digest was taken over the text of
    [datetime.utcnow()], the verifier takes it over the text of the
    stored [created_at]. *)
Theorem fresh_chain_reported_broken :
  let c := submit_all Scenario.logger
             [Scenario.request_a; Scenario.request_b] Scenario.empty in
  let a := Scenario.appended_a in
  let b := Scenario.appended_b in
  committed c = [a; b] /\
  previous_hash a = Some "genesis" /\
  previous_hash b = Some (hash a) /\
  isoformat (utcnow (rq_env Scenario.request_a)) = "2024-01-01T12:00:00" /\
  option_map isoformat (created_at a) = Some "2024-01-01T12:00:00+00:00" /\
  verify_chain_integrity Scenario.logger (committed c)
  = (false,
     [BrokenLink Scenario.id_a
        "a178ab51282267fec875ae5f013fd4067aa55a893d13a34e4631d1ffed753eb9"
        (hash a);
      BrokenLink Scenario.id_b
        "ab42bde1db6ec615ea99b0d95389479c90675d1d6dfbd25b288e117dc54d345d"
        (hash b)]).
Proof.
  split; [vm_compute; reflexivity|].
  split; [vm_compute; reflexivity|].
  split; [vm_compute; reflexivity|].
  split; [vm_compute; reflexivity|].
  split; vm_compute; reflexivity.
Qed.

(* ================================================================= *)
(** ** The text that is hashed *)

Lemma dumps_log_data a act r t o n :
  dumps (log_data_dict a act r t o n)
  = "{" ++ join ", " [quote "action" ++ ": " ++ quote act;
                       quote "actor" ++ ": " ++ quote a;
                       quote "new" ++ ": " ++ dumps n;
                       quote "old" ++ ": " ++ dumps o;
                       quote "resource" ++ ": " ++ quote r;
                       quote "timestamp" ++ ": " ++ dumps t] ++ "}".
Proof. reflexivity. Qed.

Lemma chain_message_log_data p a act r t o n :
  chain_message p (log_data_dict a act r t o n)
  = message_open p ++ quote act ++ sep_actor ++ quote a
    ++ sep_new ++ dumps n ++ sep_old ++ dumps o
    ++ sep_resource ++ quote r ++ sep_timestamp ++ dumps t ++ "}".
Proof.
  unfold chain_message. rewrite dumps_log_data.
  unfold message_open, sep_actor, sep_new, sep_old, sep_resource,
    sep_timestamp.
  cbn [join]. repeat rewrite append_assoc. reflexivity.
Qed.

Lemma row_message r :
  chain_message (previous_hash r) (row_log_data r)
  = message_open (previous_hash r) ++ quote (action r)
    ++ sep_actor ++ quote (actor_id r)
    ++ sep_new ++ dumps (from_jsonb (new_values r))
    ++ sep_old ++ dumps (from_jsonb (old_values r))
    ++ sep_resource
    ++ quote (py_str (resource_type r) ++ ":" ++ resource_id r)
    ++ sep_timestamp
    ++ dumps (match created_at r with
              | Some ts => JStr (isoformat ts)
              | None => JNull
              end) ++ "}".
Proof. unfold row_log_data. apply chain_message_log_data. Qed.

Lemma read_escaped_char c rest :
  read_escaped (escape_char c ++ rest)
  = option_map (prepend c) (read_escaped rest).
Proof.
  destruct c as [[] [] [] [] [] [] [] []]; reflexivity.
Qed.

Lemma read_escaped_escape s rest :
  read_escaped (escape s ++ String dquote rest) = Some (s, rest).
Proof.
  induction s as [|c s IH]; [reflexivity|].
  cbn [escape]. rewrite append_assoc, read_escaped_char, IH. reflexivity.
Qed.

(** A quoted text can be read off the front of what it was put
    before. *)
Lemma quote_prefix_free a b ra rb :
  quote a ++ ra = quote b ++ rb -> a = b /\ ra = rb.
Proof.
  unfold quote. cbn [append]. rewrite !append_assoc. cbn [append].
  intros E. injection E as E.
  apply (f_equal read_escaped) in E.
  rewrite !read_escaped_escape in E. now injection E.
Qed.

Lemma digits_length w n : String.length (digits w n) = w.
Proof. induction w as [|w IH]; simpl; [reflexivity | now rewrite IH]. Qed.

Lemma isoformat_length t :
  String.length (isoformat t)
  = (19 + (if (microsecond t =? 0)%Z then 0 else 7)
     + match tzinfo t with Some _ => 6 | None => 0 end)%nat.
Proof.
  unfold isoformat, utcoffset_text.
  destruct (microsecond t =? 0)%Z, (tzinfo t) as [off|];
    try destruct (off <? 0)%Z;
    repeat (rewrite append_length || rewrite digits_length);
    cbn [String.length]; lia.
Qed.

(** The text of a naive time is never the text of an aware one. *)
Lemma isoformat_naive_aware r1 r2 off :
  isoformat (at_offset r1 None) <> isoformat (at_offset r2 (Some off)).
Proof.
  intros E. apply (f_equal String.length) in E.
  rewrite !isoformat_length in E. cbn [at_offset tzinfo microsecond] in E.
  destruct (r_microsecond r1 =? 0)%Z, (r_microsecond r2 =? 0)%Z; lia.
Qed.

(* ================================================================= *)
(** ** Tampering with one payload *)

Lemma created_asc_with_new_values k v x y :
  created_asc (if log_id x =? k then with_new_values v x else x)
              (if log_id y =? k then with_new_values v y else y)
  = created_asc x y.
Proof.
  unfold created_asc.
  destruct (log_id x =? k), (log_id y =? k); reflexivity.
Qed.

Lemma sort_update_new_values k v rows :
  sort created_asc (update_new_values k v rows)
  = update_new_values k v (sort created_asc rows).
Proof.
  unfold update_new_values. apply sort_map.
  intros x y. apply created_asc_with_new_values.
Qed.

Lemma row_verdict_nil self r :
  row_verdict self r = [] ->
  hash r = _compute_hash self (previous_hash r) (row_log_data r).
Proof.
  unfold row_verdict.
  destruct (String.eqb_spec
              (_compute_hash self (previous_hash r) (row_log_data r))
              (hash r)) as [E|E]; [now symmetry | discriminate].
Qed.

Lemma row_verdict_altered self r v :
  row_verdict self r = [] ->
  dumps (from_jsonb v) <> dumps (from_jsonb (new_values r)) ->
  no_collision self
    (chain_message (previous_hash r) (row_log_data (with_new_values v r)))
    (chain_message (previous_hash r) (row_log_data r)) ->
  row_verdict self (with_new_values v r)
  = [BrokenLink (log_id r)
       (_compute_hash self (previous_hash r)
          (row_log_data (with_new_values v r)))
       (hash r)].
Proof.
  intros Hok Hneq Hcol. apply row_verdict_nil in Hok.
  unfold row_verdict. cbn [previous_hash hash log_id with_new_values].
  fold (with_new_values v r).
  destruct (String.eqb_spec
              (_compute_hash self (previous_hash r)
                 (row_log_data (with_new_values v r)))
              (hash r)) as [E|E]; [exfalso | reflexivity].
  rewrite Hok, !compute_hash_unfold in E. apply Hcol in E.
  apply Hneq.
  pose proof (row_message (with_new_values v r)) as M1.
  pose proof (row_message r) as M2.
  cbn [with_new_values previous_hash actor_id action new_values old_values
       resource_type resource_id created_at] in M1.
  fold (with_new_values v r) in M1.
  rewrite M1, M2 in E.
  do 5 apply append_inv_head in E.
  eapply append_inv_tail. exact E.
Qed.

Lemma update_absent k v rows :
  ~ In k (map log_id rows) -> update_new_values k v rows = rows.
Proof.
  induction rows as [|x l IH]; simpl; intros H; [reflexivity|].
  destruct (String.eqb_spec (log_id x) k) as [E|E]; [tauto|].
  f_equal. apply IH. tauto.
Qed.

Lemma flat_map_update self r v l :
  NoDup (map log_id l) -> In r l ->
  (forall x, In x l -> row_verdict self x = []) ->
  flat_map (row_verdict self) (update_new_values (log_id r) v l)
  = row_verdict self (with_new_values v r).
Proof.
  induction l as [|x l IH]; simpl; intros Hnd Hin Hok; [contradiction|].
  inversion Hnd as [|? ? Hx Hl]; subst.
  destruct (String.eqb_spec (log_id x) (log_id r)) as [E|E].
  - assert (x = r) as ->.
    { destruct Hin as [|Hin]; [assumption|]. exfalso. apply Hx.
      rewrite E. now apply in_map. }
    fold (update_new_values (log_id r) v l).
    rewrite update_absent by assumption.
    assert (Z : flat_map (row_verdict self) l = [])
      by (apply flat_map_nil_iff; auto).
    rewrite Z. apply app_nil_r.
  - rewrite (Hok x) by auto. simpl.
    fold (update_new_values (log_id r) v l). apply IH; auto.
    destruct Hin as [->|]; [contradiction | assumption].
Qed.

(** C2. In a table that verifies, once the [new_values] of the entry
    [r] is overwritten with a value of another canonical text, the
    verifier reports one broken link, that of [r], with the digest
    recomputed from the altered row as expected and the stored hash
    as found; no other entry is reported.  The new text is supposed not
    to collide with the old one under the key. *)
Theorem tamper_localized self rows r v :
  NoDup (map log_id rows) ->
  verify_chain_integrity self rows = (true, []) ->
  In r rows ->
  dumps (from_jsonb v) <> dumps (from_jsonb (new_values r)) ->
  no_collision self
    (chain_message (previous_hash r) (row_log_data (with_new_values v r)))
    (chain_message (previous_hash r) (row_log_data r)) ->
  verify_chain_integrity self (update_new_values (log_id r) v rows)
  = (false,
     [BrokenLink (log_id r)
        (_compute_hash self (previous_hash r)
           (row_log_data (with_new_values v r)))
        (hash r)]).
Proof.
  intros Hnd Hvalid Hin Hneq Hcol.
  pose proof (proj1 (valid_chain_iff self rows) Hvalid) as Hrows.
  rewrite verify_chain_integrity_breaks, sort_update_new_values.
  rewrite flat_map_update.
  - rewrite row_verdict_altered; auto.
  - eapply Permutation_NoDup; [|exact Hnd].
    apply Permutation_map. symmetry. apply sort_perm.
  - now apply sort_in.
  - intros x Hx. apply Hrows. now apply (sort_in created_asc).
Qed.

Lemma tamper_localized_witness :
  let r := Scenario.entry2 in
  let v := Some Scenario.void in
  (NoDup (map log_id Scenario.chain3) /\
   verify_chain_integrity Scenario.logger Scenario.chain3 = (true, []) /\
   In r Scenario.chain3 /\
   dumps (from_jsonb v) <> dumps (from_jsonb (new_values r)) /\
   no_collision Scenario.logger
     (chain_message (previous_hash r) (row_log_data (with_new_values v r)))
     (chain_message (previous_hash r) (row_log_data r))) /\
  verify_chain_integrity Scenario.logger
    (update_new_values (log_id r) v Scenario.chain3)
  = (false,
     [BrokenLink (log_id r)
        (_compute_hash Scenario.logger (previous_hash r)
           (row_log_data (with_new_values v r)))
        (hash r)]).
Proof.
  assert (H1 : NoDup (map log_id Scenario.chain3))
    by (repeat constructor; simpl; intuition discriminate).
  assert (H2 : verify_chain_integrity Scenario.logger Scenario.chain3
               = (true, []))
    by (vm_compute; reflexivity).
  assert (H3 : In Scenario.entry2 Scenario.chain3) by (simpl; auto).
  assert (H4 : dumps (from_jsonb (Some Scenario.void))
               <> dumps (from_jsonb (new_values Scenario.entry2)))
    by (vm_compute; discriminate).
  assert (H5 : no_collision Scenario.logger
                 (chain_message (previous_hash Scenario.entry2)
                    (row_log_data
                       (with_new_values (Some Scenario.void) Scenario.entry2)))
                 (chain_message (previous_hash Scenario.entry2)
                    (row_log_data Scenario.entry2)))
    by (intros H; vm_compute in H; discriminate).
  split; [auto|].
  exact (tamper_localized _ _ _ _ H1 H2 H3 H4 H5).
Defined.

(** The same run, with the values written out. *)
Example tamper_localized_values :
  verify_chain_integrity Scenario.logger
    (update_new_values Scenario.id_b (Some Scenario.void) Scenario.chain3)
  = (false,
     [BrokenLink Scenario.id_b
        "515d350b5a482439b8df0d25eb52499447b813ce1653bd376d24ee8532523e82"
        Scenario.hash2]).
Proof. vm_compute. reflexivity. Qed.

(* ================================================================= *)
(** ** Values that are false without being [None] *)

Lemma jsonb_round_trip v :
  truthy v = true \/ v = JNull -> from_jsonb (to_jsonb v) = v.
Proof.
  unfold to_jsonb. intros [H| ->]; [now rewrite H | reflexivity].
Qed.

Lemma falsy_stored_null v : falsy v -> to_jsonb v = None.
Proof. unfold to_jsonb. intros [H _]. now rewrite H. Qed.

Lemma falsy_or_round_trip v :
  falsy v \/ from_jsonb (to_jsonb v) = v.
Proof.
  destruct (truthy v) eqn:T.
  - right. apply jsonb_round_trip. now left.
  - destruct v; try (left; split; [exact T | discriminate]).
    right. reflexivity.
Qed.

(** The text of such a value does not start like [null]. *)
Lemma falsy_dumps v :
  falsy v -> exists c s, dumps v = String c s /\ c <> "n"%char.
Proof.
  intros [T N]. destruct v as [|b|n|s|items|fields]; simpl in T.
  - contradiction.
  - subst b. exists "f"%char, "alse". split; [reflexivity | discriminate].
  - apply negb_false_iff, Z.eqb_eq in T. subst n.
    exists "0"%char, "". split; [reflexivity | discriminate].
  - apply negb_false_iff, String.eqb_eq in T. subst s.
    exists dquote, (String dquote ""). split; [reflexivity | discriminate].
  - destruct items; [|discriminate].
    exists "["%char, "]". split; [reflexivity | discriminate].
  - destruct fields; [|discriminate].
    exists "{"%char, "}". split; [reflexivity | discriminate].
Qed.

Lemma falsy_not_null_text v rest rest' :
  falsy v -> dumps v ++ rest <> dumps JNull ++ rest'.
Proof.
  intros F E. apply falsy_dumps in F as (c & s & D & Hc).
  rewrite D in E. simpl in E. injection E as E _. contradiction.
Qed.

(** Whatever the two time stamps are, the text hashed at the append
    and the text rebuilt from the stored columns differ as soon as
    [old_val] or [new_val] is false without being [None]. *)
Lemma falsy_message_differs p a a' act act' r r' t t' o n :
  falsy o \/ falsy n ->
  chain_message p (log_data_dict a' act' r' t' (from_jsonb (to_jsonb o))
                                 (from_jsonb (to_jsonb n)))
  <> chain_message p (log_data_dict a act r t o n).
Proof.
  intros F E. rewrite !chain_message_log_data in E.
  apply append_inv_head in E.
  apply quote_prefix_free in E as [_ E].
  apply append_inv_head in E.
  apply quote_prefix_free in E as [_ E].
  apply append_inv_head in E.
  destruct (falsy_or_round_trip n) as [Fn|Rn].
  - rewrite (falsy_stored_null n Fn) in E. symmetry in E.
    now apply falsy_not_null_text in E.
  - rewrite Rn in E. apply append_inv_head, append_inv_head in E.
    destruct F as [Fo|Fn].
    + rewrite (falsy_stored_null o Fo) in E. symmetry in E.
      now apply falsy_not_null_text in E.
    + rewrite (falsy_stored_null n Fn) in Rn. simpl in Rn. subst n.
      destruct Fn as [_ Fn]. now apply Fn.
Qed.

Lemma row_verdict_in_verify self rows r b :
  In r rows -> In b (row_verdict self r) ->
  In b (snd (verify_chain_integrity self rows)).
Proof.
  intros Hr Hb. rewrite verify_chain_integrity_breaks. cbn [snd].
  apply in_flat_map. exists r. split; [now apply sort_in | exact Hb].
Qed.

(** C8. When [log_change] returns and [old_val] or [new_val] is false
    without being [None] (an empty object, say), the committed row
    carries the digest of the values as given, its column for that
    value is NULL, the text the verifier rebuilds from the row differs
    from the text that was hashed, and (unless the two texts collide
    under the key) the verifier reports the row. *)
Theorem falsy_value_breaks_fresh_entry
    self e actor act rtype rid old new c id c' :
  log_change self e actor act rtype rid old new c = (Return id, c') ->
  falsy old \/ falsy new ->
  exists row,
    In row (committed c') /\ log_id row = id /\
    hash row
    = _compute_hash self (previous_hash row)
        (log_data_dict (py_str actor) act (py_str rtype ++ ":" ++ rid)
                       (JStr (isoformat (utcnow e))) old new) /\
    (falsy old -> old_values row = None) /\
    (falsy new -> new_values row = None) /\
    chain_message (previous_hash row) (row_log_data row)
    <> chain_message (previous_hash row)
         (log_data_dict (py_str actor) act (py_str rtype ++ ":" ++ rid)
                        (JStr (isoformat (utcnow e))) old new) /\
    (no_collision self
       (chain_message (previous_hash row) (row_log_data row))
       (chain_message (previous_hash row)
          (log_data_dict (py_str actor) act (py_str rtype ++ ":" ++ rid)
                         (JStr (isoformat (utcnow e))) old new)) ->
     In (BrokenLink id
           (_compute_hash self (previous_hash row) (row_log_data row))
           (hash row))
        (snd (verify_chain_integrity self (committed c')))).
Proof.
  intros H F.
  apply log_change_returns in H
    as (a & act' & rtype' & row & -> & _ & _ & (a' & rid' & _ & _ & Hrow)
        & -> & -> & _).
  exists row. cbn [committed].
  assert (Hin : In row (visible c ++ [row])%list)
    by (apply in_or_app; right; now left).
  assert (Hmsg :
    chain_message (previous_hash row) (row_log_data row)
    <> chain_message (previous_hash row)
         (log_data_dict (py_str (Some a)) act (py_str rtype ++ ":" ++ rid)
                        (JStr (isoformat (utcnow e))) old new)).
  { subst row. unfold row_log_data.
    cbn [previous_hash actor_id action resource_type resource_id
         old_values new_values created_at py_str].
    now apply falsy_message_differs. }
  split; [exact Hin|]. split; [now subst row|].
  split; [now subst row|].
  split; [intros Fo; subst row; now apply falsy_stored_null|].
  split; [intros Fn; subst row; now apply falsy_stored_null|].
  split; [exact Hmsg|].
  intros Hcol. apply (row_verdict_in_verify self _ row); [exact Hin|].
  unfold row_verdict.
  destruct (String.eqb_spec
              (_compute_hash self (previous_hash row) (row_log_data row))
              (hash row)) as [E|E].
  - exfalso. apply Hmsg, Hcol. rewrite <- !compute_hash_unfold.
    rewrite E. now subst row.
  - subst row. now left.
Qed.

(** The text hashed at an append is never the text the verifier
    rebuilds from the row that the append stores: the first holds the
    naive time of the Python clock, the second the aware time of the
    server clock. *)
Lemma append_message_differs p a a' act act' r r' e o n :
  chain_message p
    (log_data_dict a' act' r' (JStr (isoformat (current_timestamp e)))
                   (from_jsonb (to_jsonb o)) (from_jsonb (to_jsonb n)))
  <> chain_message p
       (log_data_dict a act r (JStr (isoformat (utcnow e))) o n).
Proof.
  destruct (falsy_or_round_trip n) as [Fn|Rn];
    [apply falsy_message_differs; now right|].
  destruct (falsy_or_round_trip o) as [Fo|Ro];
    [apply falsy_message_differs; now left|].
  rewrite Rn, Ro, !chain_message_log_data. intros E.
  apply append_inv_head in E.
  apply quote_prefix_free in E as [_ E].
  apply append_inv_head in E.
  apply quote_prefix_free in E as [_ E].
  do 5 apply append_inv_head in E.
  apply quote_prefix_free in E as [_ E].
  apply append_inv_head in E. cbn [dumps] in E.
  apply quote_prefix_free in E as [E _]. symmetry in E.
  now apply isoformat_naive_aware in E.
Qed.

(** Every entry that [log_change] commits is reported by the verifier
    right away, unless the two texts collide under the key. *)
Lemma fresh_entry_reported self e actor act rtype rid old new c id c' :
  log_change self e actor act rtype rid old new c = (Return id, c') ->
  exists row,
    In row (committed c') /\ log_id row = id /\
    chain_message (previous_hash row) (row_log_data row)
    <> chain_message (previous_hash row)
         (log_data_dict (py_str actor) act (py_str rtype ++ ":" ++ rid)
                        (JStr (isoformat (utcnow e))) old new) /\
    (no_collision self
       (chain_message (previous_hash row) (row_log_data row))
       (chain_message (previous_hash row)
          (log_data_dict (py_str actor) act (py_str rtype ++ ":" ++ rid)
                         (JStr (isoformat (utcnow e))) old new)) ->
     fst (verify_chain_integrity self (committed c')) = false).
Proof.
  intros H.
  apply log_change_returns in H
    as (a & act' & rtype' & row & -> & _ & _ & (a' & rid' & _ & _ & Hrow)
        & -> & -> & _).
  exists row. cbn [committed].
  assert (Hin : In row (visible c ++ [row])%list)
    by (apply in_or_app; right; now left).
  assert (Hmsg :
    chain_message (previous_hash row) (row_log_data row)
    <> chain_message (previous_hash row)
         (log_data_dict (py_str (Some a)) act (py_str rtype ++ ":" ++ rid)
                        (JStr (isoformat (utcnow e))) old new)).
  { subst row. unfold row_log_data.
    cbn [previous_hash actor_id action resource_type resource_id
         old_values new_values created_at py_str].
    apply append_message_differs. }
  split; [exact Hin|]. split; [now subst row|]. split; [exact Hmsg|].
  intros Hcol. rewrite verify_chain_integrity_breaks. cbn [fst].
  apply Nat.eqb_neq. intros Hlen. apply length_zero_iff_nil in Hlen.
  rewrite flat_map_nil_iff in Hlen.
  specialize (Hlen row (proj2 (sort_in created_asc row _) Hin)).
  apply row_verdict_nil in Hlen.
  apply Hmsg, Hcol. rewrite <- !compute_hash_unfold, <- Hlen. now subst row.
Qed.

Lemma falsy_value_breaks_fresh_entry_witness :
  let e := Scenario.env_at 0 Scenario.id_a None in
  let c' := Conn [Scenario.appended_empty_old] [] in
  let hashed :=
    log_data_dict (py_str (Some Scenario.u1)) "CREATE"
      (py_str (Some "INVOICE") ++ ":" ++ Scenario.inv1)
      (JStr (isoformat (utcnow e))) (JObj []) Scenario.draft in
  (log_change Scenario.logger e (Some Scenario.u1) "CREATE"
     (Some "INVOICE") Scenario.inv1 (JObj []) Scenario.draft Scenario.empty
   = (Return Scenario.id_a, c') /\
   (falsy (JObj []) \/ falsy Scenario.draft)) /\
  exists row,
    In row (committed c') /\ log_id row = Scenario.id_a /\
    hash row = _compute_hash Scenario.logger (previous_hash row) hashed /\
    (falsy (JObj []) -> old_values row = None) /\
    (falsy Scenario.draft -> new_values row = None) /\
    chain_message (previous_hash row) (row_log_data row)
    <> chain_message (previous_hash row) hashed /\
    (no_collision Scenario.logger
       (chain_message (previous_hash row) (row_log_data row))
       (chain_message (previous_hash row) hashed) ->
     In (BrokenLink Scenario.id_a
           (_compute_hash Scenario.logger (previous_hash row)
              (row_log_data row))
           (hash row))
        (snd (verify_chain_integrity Scenario.logger (committed c')))).
Proof.
  assert (H1 : log_change Scenario.logger
                 (Scenario.env_at 0 Scenario.id_a None) (Some Scenario.u1)
                 "CREATE" (Some "INVOICE") Scenario.inv1 (JObj [])
                 Scenario.draft Scenario.empty
               = (Return Scenario.id_a,
                  Conn [Scenario.appended_empty_old] []))
    by (vm_compute; reflexivity).
  assert (H2 : falsy (JObj []) \/ falsy Scenario.draft)
    by (left; split; [reflexivity | discriminate]).
  split; [auto|].
  exact (falsy_value_breaks_fresh_entry _ _ _ _ _ _ _ _ _ _ _ H1 H2).
Defined.

(** The same call, with the values written out: the row holds NULL for
    [old_values] and is reported by the verifier. *)
Example empty_object_stored_as_null :
  log_change Scenario.logger (Scenario.env_at 0 Scenario.id_a None)
    (Some Scenario.u1) "CREATE" (Some "INVOICE") Scenario.inv1
    (JObj []) Scenario.draft Scenario.empty
  = (Return Scenario.id_a, Conn [Scenario.appended_empty_old] []) /\
  old_values Scenario.appended_empty_old = None /\
  verify_chain_integrity Scenario.logger [Scenario.appended_empty_old]
  = (false,
     [BrokenLink Scenario.id_a
        "a178ab51282267fec875ae5f013fd4067aa55a893d13a34e4631d1ffed753eb9"
        "356e6eae30eb27eb83b6503415bb4eca664fff493665c2198849eaf9a915937b"]).
Proof.
  split; [vm_compute; reflexivity|].
  split; [reflexivity|]. vm_compute; reflexivity.
Qed.

(* ================================================================= *)
(** ** The history of a resource *)

Lemma matches_iff rtype rid row :
  matches rtype rid row = true <->
  exists t, rtype = Some t /\ resource_type row = Some t /\
            uuid_in rid = Some (resource_id row).
Proof.
  unfold matches, matches_uuid. split.
  - destruct (uuid_in rid) as [id|]; [|discriminate].
    destruct rtype as [a|]; [|discriminate].
    destruct (resource_type row) as [b|]; [|discriminate].
    intros H. apply andb_true_iff in H as [H1 H2].
    apply String.eqb_eq in H1, H2. subst. exists b. auto.
  - intros (t & -> & -> & ->). now rewrite !String.eqb_refl.
Qed.

Lemma filter_partition {A} (f : A -> bool) l :
  Permutation (filter f l ++ filter (fun x => negb (f x)) l) l.
Proof.
  induction l as [|x l IH]; cbn [filter]; [constructor|].
  destruct (f x); cbn [negb app].
  - now constructor.
  - apply Permutation_sym, Permutation_cons_app, Permutation_sym, IH.
Qed.

Lemma created_desc_newest_first l :
  StronglySorted (fun a b => created_desc a b = true) l ->
  StronglySorted
    (fun a b => match created_at a, created_at b with
                | Some x, Some y => (instant y <= instant x)%Z
                | None, _ => True
                | Some _, None => False
                end) l.
Proof.
  induction 1 as [|a l Hl IH Ha]; constructor; [exact IH|].
  eapply Forall_impl; [|exact Ha].
  intros b. unfold created_desc, timestamp_leb.
  destruct (created_at a), (created_at b); intros H;
    try discriminate; try exact I.
  now apply Z.leb_le.
Qed.

(** C10. Asked with a type and with the text of a UUID,
    [get_resource_history] returns the entries of exactly the rows of
    that type and that UUID, newest first (a row without a time
    before the others), cut after [limit] rows: each entry shows the
    columns of its row, and the table is a rearrangement of the rows
    returned, the matching rows cut off and the rows that do not
    match. *)
Theorem history_query rows t rid id limit :
  uuid_in rid = Some id ->
  exists selected rest others,
    Forall2 (fun h r =>
               h_timestamp h = created_at r /\ h_action h = action r /\
               h_actor h = actor_id r /\ h_hash h = hash r /\
               h_old_values h = from_jsonb (old_values r) /\
               h_new_values h = from_jsonb (new_values r))
            (get_resource_history rows (Some t) rid limit) selected /\
    Permutation (selected ++ rest ++ others) rows /\
    Forall (fun r => resource_type r = Some t /\ resource_id r = id)
           (selected ++ rest) /\
    Forall (fun r => ~ (resource_type r = Some t /\ resource_id r = id))
           others /\
    StronglySorted
      (fun a b => match created_at a, created_at b with
                  | Some x, Some y => (instant y <= instant x)%Z
                  | None, _ => True
                  | Some _, None => False
                  end) (selected ++ rest) /\
    List.length selected = Nat.min limit (List.length (selected ++ rest)) /\
    (List.length (get_resource_history rows (Some t) rid limit)
     <= limit)%nat.
Proof.
  intros Hid.
  set (found := filter (matches (Some t) rid) rows).
  exists (firstn limit (sort created_desc found)),
         (skipn limit (sort created_desc found)),
         (filter (fun r => negb (matches (Some t) rid r)) rows).
  split.
  { unfold get_resource_history. fold found.
    induction (firstn limit (sort created_desc found)) as [|r l IH];
      cbn [map]; constructor; [|exact IH].
    unfold history_of_row.
    cbn [h_timestamp h_action h_actor h_hash h_old_values h_new_values].
    auto 10. }
  rewrite app_assoc, firstn_skipn.
  split.
  { eapply Permutation_trans; [|apply (filter_partition
                                         (matches (Some t) rid))].
    apply Permutation_app_tail, sort_perm. }
  split.
  { apply Forall_forall. intros r Hr.
    apply (proj1 (sort_in created_desc r found)) in Hr.
    apply filter_In in Hr as [_ Hm].
    apply matches_iff in Hm as (t' & Ht & Hrt & Hu).
    injection Ht as <-. split; [exact Hrt | congruence]. }
  split.
  { apply Forall_forall. intros r Hr [Hrt Hri].
    apply filter_In in Hr as [_ Hm].
    apply negb_true_iff in Hm.
    assert (Hm' : matches (Some t) rid r = true)
      by (apply matches_iff; exists t; rewrite Hid, Hri; auto).
    congruence. }
  split.
  { apply created_desc_newest_first, sort_sorted;
      [apply created_desc_total | apply created_desc_trans]. }
  split.
  - rewrite length_firstn, sort_length. reflexivity.
  - unfold get_resource_history. fold found.
    rewrite length_map, length_firstn. lia.
Qed.

Lemma history_query_witness :
  uuid_in "987FCDEB-51A2-43D7-9B56-243678901234" = Some Scenario.inv1 /\
  exists selected rest others,
    Forall2 (fun h r =>
               h_timestamp h = created_at r /\ h_action h = action r /\
               h_actor h = actor_id r /\ h_hash h = hash r /\
               h_old_values h = from_jsonb (old_values r) /\
               h_new_values h = from_jsonb (new_values r))
            (get_resource_history Scenario.chain3 (Some "INVOICE")
               "987FCDEB-51A2-43D7-9B56-243678901234" 2) selected /\
    Permutation (selected ++ rest ++ others) Scenario.chain3 /\
    Forall (fun r => resource_type r = Some "INVOICE" /\
                     resource_id r = Scenario.inv1)
           (selected ++ rest) /\
    Forall (fun r => ~ (resource_type r = Some "INVOICE" /\
                        resource_id r = Scenario.inv1))
           others /\
    StronglySorted
      (fun a b => match created_at a, created_at b with
                  | Some x, Some y => (instant y <= instant x)%Z
                  | None, _ => True
                  | Some _, None => False
                  end) (selected ++ rest) /\
    List.length selected = Nat.min 2 (List.length (selected ++ rest)) /\
    (List.length (get_resource_history Scenario.chain3 (Some "INVOICE")
                    "987FCDEB-51A2-43D7-9B56-243678901234" 2)
     <= 2)%nat.
Proof.
  assert (H : uuid_in "987FCDEB-51A2-43D7-9B56-243678901234"
              = Some Scenario.inv1)
    by (vm_compute; reflexivity).
  split; [exact H|].
  exact (history_query Scenario.chain3 "INVOICE" _ _ 2 H).
Defined.

(** The history of the invoice, asked for in upper case: the two
    newest of the three entries. *)
Example history_of_the_invoice :
  map h_action
      (get_resource_history Scenario.chain3 (Some "INVOICE")
         "987FCDEB-51A2-43D7-9B56-243678901234" 2)
  = ["DELETE"; "UPDATE"].
Proof. vm_compute. reflexivity. Qed.

(* ================================================================= *)
(** ** Calls made one after the other *)

Lemma existsb_false_not_in {A} (f : A -> bool) l :
  existsb f l = false -> forall x, In x l -> f x = false.
Proof.
  intros H x Hx. destruct (f x) eqn:E; [|reflexivity].
  enough (existsb f l = true) by congruence.
  apply existsb_exists. eauto.
Qed.

Lemma sorted_snoc {A} (R : A -> A -> Prop) l x :
  Sorted R l -> Forall (fun y => R y x) l -> Sorted R (l ++ [x]).
Proof.
  induction 1 as [|y l Hs IH Hd]; intros Hall; simpl.
  - repeat constructor.
  - inversion Hall as [|? ? Hy Hl]; subst.
    constructor; [now apply IH|].
    destruct Hd as [|z l Hyz]; simpl; now constructor.
Qed.

Lemma linked_from_snoc prev rows r :
  linked_from prev rows ->
  previous_hash r = Some (last_hash prev rows) ->
  linked_from prev (rows ++ [r]).
Proof.
  revert prev. induction rows as [|x rows IH]; intros prev; simpl.
  - auto.
  - intros [Hx Hl] Hr. split; [exact Hx | now apply IH].
Qed.

Lemma last_hash_snoc prev rows r :
  last_hash prev (rows ++ [r]) = hash r.
Proof. unfold last_hash. now rewrite fold_left_app. Qed.

Lemma linked_from_nth prev rows :
  linked_from prev rows -> chain_linked rows.
Proof.
  revert prev. induction rows as [|x rows IH]; intros prev H i p r Hp Hr.
  - destruct i; discriminate.
  - destruct H as [_ Hl]. destruct i as [|i].
    + simpl in Hp. injection Hp as ->.
      destruct rows as [|y rows]; [discriminate|].
      simpl in Hr. injection Hr as ->. apply Hl.
    + simpl in Hp. eapply IH; eauto.
Qed.

Lemma linked_from_prev_in prev rows x :
  linked_from prev rows -> In x rows ->
  exists h, previous_hash x = Some h /\ In h (prev :: map hash rows).
Proof.
  revert prev. induction rows as [|y rows IH]; intros prev H Hx.
  - contradiction.
  - destruct H as [Hy Hl]. destruct Hx as [->|Hx].
    + exists prev. split; [exact Hy | now left].
    + destruct (IH _ Hl Hx) as (h & Hh & Hin).
      exists h. split; [exact Hh | right; exact Hin].
Qed.

Lemma linked_fork_free prev rows :
  linked_from prev rows -> NoDup (prev :: map hash rows) -> fork_free rows.
Proof.
  revert prev. induction rows as [|x rows IH]; intros prev H Hnd.
  - intros [|i] j r1 r2 H1; discriminate.
  - destruct H as [Hx Hl]. inversion Hnd as [|? ? Hprev Hnd']; subst.
    assert (Hhead : forall k r, nth_error rows k = Some r ->
                                previous_hash r <> Some prev).
    { intros k r Hr E.
      destruct (linked_from_prev_in _ _ r Hl) as (h & Hh & Hin).
      - eapply nth_error_In; eauto.
      - rewrite E in Hh. injection Hh as <-. apply Hprev. exact Hin. }
    intros [|i] [|j] r1 r2 H1 H2 E; simpl in H1, H2.
    + reflexivity.
    + injection H1 as <-. rewrite Hx in E. symmetry in E.
      now apply Hhead in H2.
    + injection H2 as <-. rewrite Hx in E. now apply Hhead in H1.
    + f_equal. eapply (IH _ Hl Hnd'); eauto.
Qed.

Lemma sequential_bound b b' rows :
  (b <= b')%Z -> sequential b rows -> sequential b' rows.
Proof.
  intros Hb (Hs & Hf & Hl & Ht & Hn). repeat split; auto.
  eapply Forall_impl; [|exact Hf].
  intros r (t & Ht' & Hlt). exists t. split; [exact Ht' | lia].
Qed.

Lemma sequential_nil b : sequential b [].
Proof.
  repeat split; try constructor; auto. constructor.
Qed.

(** One more call keeps the table sequential. *)
Lemma sequential_submit self q c b :
  sequential b (committed c) -> pending c = [] ->
  (b <= server_time q)%Z ->
  sequential (server_time q + 1) (committed (snd (submit self q c))) /\
  pending (snd (submit self q c)) = [].
Proof.
  intros Hseq Hp Hb. unfold submit.
  destruct (log_change self (rq_env q) (rq_actor_id q) (rq_action q)
              (rq_resource_type q) (rq_resource_id q)
              (rq_old_val q) (rq_new_val q) c) as [[id|err] c'] eqn:E.
  - apply log_change_returns in E
      as (a & act' & rtype' & row & _ & _ & _ & (a' & rid' & _ & _ & Hrow)
          & _ & -> & Hh & _).
    cbn [snd committed pending]. split; [|reflexivity].
    assert (V : visible c = committed c)
      by (unfold visible; rewrite Hp; apply app_nil_r).
    rewrite V in *. destruct Hseq as (Hs & Hf & Hl & Ht & Hn).
    assert (Hts : created_at row = Some (current_timestamp (rq_env q)))
      by now subst row.
    assert (Hprev : previous_hash row = Some (tip_hash (committed c)))
      by now subst row.
    assert (Hnew : hash row <> "genesis")
      by (subst row; apply compute_hash_not_genesis).
    clear Hrow. repeat split.
    + apply sorted_snoc; [exact Hs|].
      eapply Forall_impl; [|exact Hf].
      intros r (t & Hr & Hlt). unfold created_asc. rewrite Hr, Hts.
      apply Z.leb_le. unfold server_time in Hb. lia.
    + apply Forall_app. split.
      * eapply Forall_impl; [|exact Hf].
        intros r (t & Hr & Hlt). exists t. split; [exact Hr | lia].
      * constructor; [|constructor]. eexists. split; [exact Hts|].
        unfold server_time. lia.
    + apply linked_from_snoc; [exact Hl | now rewrite Hprev, Ht].
    + rewrite last_hash_snoc. unfold tip_hash.
      rewrite sort_snoc_front; [reflexivity|].
      eapply Forall_impl; [|exact Hf].
      intros r (t & Hr & Hlt). unfold created_desc. rewrite Hr, Hts.
      apply Z.leb_gt. unfold server_time in Hb. lia.
    + rewrite map_app. cbn [map].
      inversion Hn as [|? ? Hg Hhs]; subst.
      assert (Hfresh : ~ In (hash row) (map hash (committed c))).
      { intros Hin. apply in_map_iff in Hin as (r & Hr & Hin).
        apply (existsb_false_not_in _ _ Hh) in Hin.
        apply String.eqb_neq in Hin. congruence. }
      constructor.
      * intros Hin. apply in_app_or in Hin as [Hin|[Hin|[]]]; auto.
      * apply NoDup_app; [exact Hhs | repeat constructor; auto |].
        intros h Hin [<-|[]]. contradiction.
  - apply log_change_raises in E. subst c'.
    cbn [snd committed pending]. split; [|reflexivity].
    eapply sequential_bound; [|exact Hseq]. lia.
Qed.

Lemma sequential_submit_all self qs :
  forall c b,
    sequential b (committed c) -> pending c = [] ->
    clock_increasing qs ->
    Forall (fun q => (b <= server_time q)%Z) qs ->
    exists b', sequential b' (committed (submit_all self qs c)).
Proof.
  induction qs as [|q qs IH]; intros c b Hseq Hp Hclock Hb; simpl.
  - now exists b.
  - inversion Hclock as [|? ? Hqs Hq]; subst.
    inversion Hb as [|? ? Hbq _]; subst.
    destruct (sequential_submit self q c b Hseq Hp Hbq) as [Hseq' Hp'].
    apply (IH _ (server_time q + 1)%Z); auto.
    eapply Forall_impl; [|exact Hq]. simpl. intros; lia.
Qed.

Lemma sequential_from_empty self qs :
  clock_increasing qs ->
  exists b, sequential b (committed (submit_all self qs (Conn [] []))).
Proof.
  intros Hclock. destruct qs as [|q qs].
  - exists 0%Z. apply sequential_nil.
  - apply (sequential_submit_all self (q :: qs) _ (server_time q));
      auto using sequential_nil.
    inversion Hclock as [|? ? _ Hq]; subst.
    constructor; [lia|]. eapply Forall_impl; [|exact Hq]. simpl. intros; lia.
Qed.

Lemma scenario_clock_increasing :
  clock_increasing [Scenario.request_a; Scenario.request_b].
Proof.
  repeat constructor.
Qed.

(** C5 as stated fails: when the server clock steps back between two
    calls, the second entry sorts before the first, and the entry that
    then comes second in the chain is still chained to ["genesis"]. *)
Lemma chain_linking_clock_steps_back :
  let c := submit_all Scenario.logger
             [Scenario.request_late_a; Scenario.request_early_b]
             Scenario.empty in
  committed c = [Scenario.late_a; Scenario.early_b] /\
  sort created_asc (committed c) = [Scenario.early_b; Scenario.late_a] /\
  previous_hash Scenario.late_a = Some "genesis" /\
  ~ chain_linked (sort created_asc (committed c)).
Proof.
  assert (E : sort created_asc
                (committed (submit_all Scenario.logger
                   [Scenario.request_late_a; Scenario.request_early_b]
                   Scenario.empty))
              = [Scenario.early_b; Scenario.late_a])
    by (vm_compute; reflexivity).
  split; [vm_compute; reflexivity|].
  split; [exact E|]. split; [reflexivity|].
  cbv zeta. rewrite E. intros H.
  specialize (H 0%nat Scenario.early_b Scenario.late_a eq_refl eq_refl).
  vm_compute in H. discriminate.
Qed.

(** C5, amended. When the calls are made one after the other and the
    server clock is strictly later at every next call, then, in the
    order of [created_at], every entry but the first is chained to the
    hash of the entry just before it, and the first to ["genesis"]. *)
Theorem chain_linking_invariant self qs :
  clock_increasing qs ->
  let chain :=
    sort created_asc (committed (submit_all self qs (Conn [] []))) in
  chain_linked chain /\
  (forall r, nth_error chain 0 = Some r -> previous_hash r = Some "genesis").
Proof.
  intros Hclock.
  destruct (sequential_from_empty self qs Hclock)
    as (b & Hs & _ & Hl & _ & _).
  cbv zeta. rewrite (sort_sorted_id _ _ Hs). split.
  - eapply linked_from_nth. exact Hl.
  - intros r Hr.
    destruct (committed (submit_all self qs (Conn [] []))) as [|x rows];
      [discriminate|].
    simpl in Hr. injection Hr as <-. apply Hl.
Qed.

Lemma chain_linking_invariant_witness :
  clock_increasing [Scenario.request_a; Scenario.request_b] /\
  let chain :=
    sort created_asc
      (committed (submit_all Scenario.logger
                    [Scenario.request_a; Scenario.request_b] (Conn [] []))) in
  chain_linked chain /\
  (forall r, nth_error chain 0 = Some r -> previous_hash r = Some "genesis").
Proof.
  assert (H : clock_increasing [Scenario.request_a; Scenario.request_b])
    by (repeat constructor).
  split; [exact H|].
  exact (chain_linking_invariant Scenario.logger _ H).
Defined.

(* ================================================================= *)
(** ** Two calls that read the same latest hash *)

Lemma complete_returns self q p c id c' :
  complete self q p c = (Return id, c') ->
  exists row,
    c' = Conn (visible c ++ [row])%list [] /\ log_id row = id /\
    previous_hash row = Some p.
Proof.
  unfold complete, try_except, append_to, bind, ret, insert_audit_log,
    commit, rollback_and_reraise, rollback, raise.
  intros H. cbv beta in H.
  repeat match type of H with
         | context [if ?b then _ else _] =>
             destruct b; cbn [committed pending fst snd] in H
         | context [match ?x with Some _ => _ | None => _ end] =>
             destruct x; cbn [committed pending fst snd option_map] in H
         end;
    try discriminate.
  injection H as <- <-. eexists. split.
  - unfold visible. rewrite app_assoc. reflexivity.
  - split; reflexivity.
Qed.

Lemma both_complete self q1 q2 rows p id1 id2 s1 s2 :
  on_session1 (complete self q1 p) (Server rows [] []) = (Return id1, s1) ->
  on_session2 (complete self q2 p) s1 = (Return id2, s2) ->
  exists r1 r2,
    s2 = Server (rows ++ [r1; r2])%list [] [] /\
    log_id r1 = id1 /\ log_id r2 = id2 /\
    previous_hash r1 = Some p /\ previous_hash r2 = Some p.
Proof.
  unfold on_session1, on_session2. cbn [shared session1 session2].
  destruct (complete self q1 p (Conn rows [])) as [o1 c1] eqn:C1.
  intros H1. injection H1 as -> <-.
  apply complete_returns in C1 as (r1 & -> & <- & Hp1).
  cbn [shared session1 session2 committed pending].
  unfold visible. cbn [committed pending]. rewrite app_nil_r.
  destruct (complete self q2 p (Conn (rows ++ [r1])%list [])) as [o2 c2] eqn:C2.
  intros H2. injection H2 as -> <-.
  apply complete_returns in C2 as (r2 & -> & <- & Hp2).
  exists r1, r2. unfold visible. cbn [committed pending].
  rewrite app_nil_r, <- app_assoc. auto.
Qed.

(** C4 as stated fails: the two calls of the scenario, made so that
    both read the latest hash of the empty table before either
    inserts, both return; neither receives a conflict, and the two
    committed entries are chained to the same hash. *)
Lemma fork_when_tip_is_shared :
  race Scenario.logger Scenario.request_a Scenario.request_b Scenario.idle
  = (Return Scenario.id_a, Return Scenario.id_b,
     Server [Scenario.appended_a; Scenario.forked_b] [] []) /\
  previous_hash Scenario.appended_a = previous_hash Scenario.forked_b /\
  ~ fork_free [Scenario.appended_a; Scenario.forked_b].
Proof.
  split; [vm_compute; reflexivity|]. split; [reflexivity|].
  intros H.
  specialize (H 0%nat 1%nat Scenario.appended_a Scenario.forked_b
                eq_refl eq_refl eq_refl).
  discriminate.
Qed.

(** C4, amended. Calls made one after the other under a strictly
    increasing server clock never commit two entries chained to the
    same hash.  [log_change] detects no conflict: when two calls have
    read the same latest hash, whichever row it came from, and both
    return, both have committed, and their two entries are chained to
    that same hash. *)
Theorem no_conflict_detection :
  (forall self qs,
      clock_increasing qs ->
      fork_free (committed (submit_all self qs (Conn [] [])))) /\
  (forall self q1 q2 rows p id1 id2 s1 s2,
      on_session1 (complete self q1 p) (Server rows [] [])
      = (Return id1, s1) ->
      on_session2 (complete self q2 p) s1 = (Return id2, s2) ->
      exists r1 r2,
        s2 = Server (rows ++ [r1; r2])%list [] [] /\
        log_id r1 = id1 /\ log_id r2 = id2 /\
        previous_hash r1 = Some p /\ previous_hash r2 = Some p).
Proof.
  split.
  - intros self qs Hclock.
    destruct (sequential_from_empty self qs Hclock)
      as (b & _ & _ & Hl & _ & Hn).
    eapply linked_fork_free; eauto.
  - exact both_complete.
Qed.

Lemma no_conflict_detection_witness :
  (clock_increasing [Scenario.request_a; Scenario.request_b] /\
   on_session1 (complete Scenario.logger Scenario.request_a "genesis")
               (Server [] [] [])
   = (Return Scenario.id_a, Server [Scenario.appended_a] [] []) /\
   on_session2 (complete Scenario.logger Scenario.request_b "genesis")
               (Server [Scenario.appended_a] [] [])
   = (Return Scenario.id_b,
      Server [Scenario.appended_a; Scenario.forked_b] [] [])) /\
  fork_free (committed (submit_all Scenario.logger
                          [Scenario.request_a; Scenario.request_b]
                          (Conn [] []))) /\
  exists r1 r2,
    Server [Scenario.appended_a; Scenario.forked_b] [] []
    = Server ([] ++ [r1; r2])%list [] [] /\
    log_id r1 = Scenario.id_a /\ log_id r2 = Scenario.id_b /\
    previous_hash r1 = Some "genesis" /\ previous_hash r2 = Some "genesis".
Proof.
  assert (H1 : clock_increasing [Scenario.request_a; Scenario.request_b])
    by (repeat constructor).
  assert (H2 : on_session1
                 (complete Scenario.logger Scenario.request_a "genesis")
                 (Server [] [] [])
               = (Return Scenario.id_a, Server [Scenario.appended_a] [] []))
    by (vm_compute; reflexivity).
  assert (H3 : on_session2
                 (complete Scenario.logger Scenario.request_b "genesis")
                 (Server [Scenario.appended_a] [] [])
               = (Return Scenario.id_b,
                  Server [Scenario.appended_a; Scenario.forked_b] [] []))
    by (vm_compute; reflexivity).
  split; [auto|]. split.
  - exact (proj1 no_conflict_detection Scenario.logger _ H1).
  - exact (proj2 no_conflict_detection _ _ _ _ _ _ _ _ _ H2 H3).
Defined.

(* ================================================================= *)
(** ** The shape of a digest *)



Transparent hmac_sha256_hexdigest.


Opaque hmac_sha256_hexdigest.


(* ================================================================= *)
(** ** The order of the keys does not matter *)

Lemma string_leb_trans a b c :
  (a <=? b) = true -> (b <=? c) = true -> (a <=? c) = true.
Proof.
  unfold String.leb. revert b c.
  induction a as [|x a IH]; intros [|y b] [|z c]; simpl; try congruence.
  unfold Ascii.compare.
  destruct (N.compare_spec (N_of_ascii x) (N_of_ascii y)),
           (N.compare_spec (N_of_ascii y) (N_of_ascii z)),
           (N.compare_spec (N_of_ascii x) (N_of_ascii z));
    try lia; try congruence; auto.
  apply IH.
Qed.

Lemma key_leb_total a b : key_leb a b = true \/ key_leb b a = true.
Proof. apply String.leb_total. Qed.

Lemma key_leb_trans a b c :
  key_leb a b = true -> key_leb b c = true -> key_leb a c = true.
Proof. apply string_leb_trans. Qed.

Lemma same_key_same_item {B} (l : list (string * B)) a b :
  NoDup (map fst l) -> In a l -> In b l -> fst a = fst b -> a = b.
Proof.
  induction l as [|x l IH]; simpl; intros Hnd Ha Hb E; [contradiction|].
  inversion Hnd as [|? ? Hx Hl]; subst.
  destruct Ha as [->|Ha], Hb as [->|Hb]; auto.
  - exfalso. apply Hx. rewrite E. now apply in_map.
  - exfalso. apply Hx. rewrite <- E. now apply in_map.
Qed.

(** Two lists in order that hold the same elements are the same list,
    when no two elements are equivalent. *)
Lemma sorted_perm_eq {A} (leb : A -> A -> bool) l1 l2 :
  (forall a b, In a l1 -> In b l1 ->
               leb a b = true -> leb b a = true -> a = b) ->
  StronglySorted (fun a b => leb a b = true) l1 ->
  StronglySorted (fun a b => leb a b = true) l2 ->
  Permutation l1 l2 -> l1 = l2.
Proof.
  revert l2. induction l1 as [|x t IH]; intros l2 Hanti S1 S2 P.
  - apply Permutation_nil in P. now subst.
  - destruct l2 as [|y u];
      [apply Permutation_sym, Permutation_nil in P; discriminate|].
    inversion S1 as [|? ? St Hx]; inversion S2 as [|? ? Su Hy]; subst.
    assert (E : x = y).
    { assert (Hxin : In x (y :: u))
        by (eapply Permutation_in; [exact P | now left]).
      assert (Hyin : In y (x :: t))
        by (eapply Permutation_in; [symmetry; exact P | now left]).
      destruct Hxin as [->|Hxu]; [reflexivity|].
      destruct Hyin as [->|Hyt]; [reflexivity|].
      apply Hanti; [now left | now right | |].
      - rewrite Forall_forall in Hx. now apply Hx.
      - rewrite Forall_forall in Hy. now apply Hy. }
    subst y. f_equal. apply IH; auto.
    + intros a b Ha Hb. apply Hanti; now right.
    + eapply Permutation_cons_inv. exact P.
Qed.

Lemma sort_keys_perm (l1 l2 : list (string * string)) :
  NoDup (map fst l1) -> Permutation l1 l2 ->
  sort key_leb l1 = sort key_leb l2.
Proof.
  intros Hnd P. apply (sorted_perm_eq key_leb).
  - intros a b Ha Hb Hab Hba.
    apply (same_key_same_item l1); auto; try now apply (sort_in key_leb).
    now apply String.leb_antisym.
  - apply sort_sorted; [apply key_leb_total | apply key_leb_trans].
  - apply sort_sorted; [apply key_leb_total | apply key_leb_trans].
  - rewrite !sort_perm. exact P.
Qed.

Lemma nodupb_NoDup l : nodupb l = true -> NoDup l.
Proof.
  induction l as [|x l IH]; simpl; intros H; [constructor|].
  apply andb_true_iff in H as [Hx Hl]. constructor; [|now apply IH].
  intros Hin. apply negb_true_iff in Hx.
  apply (existsb_false_not_in _ _ Hx) in Hin.
  now rewrite String.eqb_refl in Hin.
Qed.

Lemma json_induction (P : json -> Prop) :
  P JNull -> (forall b, P (JBool b)) -> (forall n, P (JInt n)) ->
  (forall s, P (JStr s)) ->
  (forall items, Forall P items -> P (JArr items)) ->
  (forall fields, Forall (fun kv => P (snd kv)) fields -> P (JObj fields)) ->
  forall v, P v.
Proof.
  intros Hnull Hbool Hint Hstr Harr Hobj.
  fix IH 1. intros [|b|n|s|items|fields].
  - exact Hnull.
  - apply Hbool.
  - apply Hint.
  - apply Hstr.
  - apply Harr.
    exact ((fix all (l : list json) : Forall P l :=
              match l with
              | [] => Forall_nil P
              | x :: l' => Forall_cons x (IH x) (all l')
              end) items).
  - apply Hobj.
    exact ((fix all (l : list (string * json))
              : Forall (fun kv => P (snd kv)) l :=
              match l with
              | [] => Forall_nil _
              | kv :: l' => Forall_cons kv (IH (snd kv)) (all l')
              end) fields).
Qed.

Lemma dumps_reordered v1 :
  forall v2, reordered v1 v2 -> distinct_keys v1 = true ->
             dumps v1 = dumps v2.
Proof.
  induction v1 as [|b|n|s|items IH|fields IH] using json_induction;
    intros v2 R D; inversion R; subst; try reflexivity.
  - (* arrays *)
    cbn [dumps]. do 3 f_equal. cbn [distinct_keys] in D.
    match goal with H : Forall2 reordered _ _ |- _ => rename H into F end.
    clear R. induction F as [|x y l l' Hxy F IHF]; [reflexivity|].
    inversion IH as [|? ? Hx Hl]; subst.
    cbn [forallb] in D. apply andb_true_iff in D as [Dx Dl].
    cbn [map]. f_equal; [now apply Hx | now apply IHF].
  - (* objects *)
    match goal with
    | H : Forall2 _ fields ?f, H' : Permutation ?f _ |- _ =>
        rename H into F; rename H' into Pm
    end.
    cbn [distinct_keys] in D. apply andb_true_iff in D as [Dk Dv].
    apply nodupb_NoDup in Dk.
    cbn [dumps]. do 3 f_equal.
    assert (E : map (fun kv : string * json =>
                       let (k, x) := kv in (k, dumps x)) fields
                = map (fun kv : string * json =>
                         let (k, x) := kv in (k, dumps x)) f).
    { clear R Pm Dk. induction F as [|[k x] [k' y] l l' [Hk Hxy] F IHF];
        [reflexivity|].
      inversion IH as [|? ? Hx Hl]; subst.
      cbn [forallb] in Dv. apply andb_true_iff in Dv as [Dx Dl].
      cbn [map fst snd] in *. subst k'. f_equal; [|now apply IHF].
      f_equal. now apply Hx. }
    rewrite E. f_equal. apply sort_keys_perm; [|now apply Permutation_map].
    rewrite <- E, map_map.
    erewrite map_ext; [exact Dk|]. now intros [k x].
Qed.

(** X2. The digest does not depend on the order in which the keys of
    the data, or of any object inside it, were inserted (the keys of
    each object being distinct). *)
Theorem compute_hash_key_order self previous d1 d2 :
  reordered d1 d2 -> distinct_keys d1 = true ->
  _compute_hash self previous d1 = _compute_hash self previous d2.
Proof.
  intros R D. rewrite !compute_hash_unfold. unfold chain_message.
  now rewrite (dumps_reordered d1 d2 R D).
Qed.

Lemma compute_hash_key_order_witness :
  let d1 := JObj [("status", JStr "paid"); ("amount", JInt 100)] in
  let d2 := JObj [("amount", JInt 100); ("status", JStr "paid")] in
  (reordered d1 d2 /\ distinct_keys d1 = true) /\
  _compute_hash Scenario.logger (Some "genesis") d1
  = _compute_hash Scenario.logger (Some "genesis") d2.
Proof.
  assert (R : reordered
                (JObj [("status", JStr "paid"); ("amount", JInt 100)])
                (JObj [("amount", JInt 100); ("status", JStr "paid")])).
  { eapply reordered_obj; [|apply perm_swap].
    repeat constructor. }
  assert (D : distinct_keys
                (JObj [("status", JStr "paid"); ("amount", JInt 100)])
              = true) by reflexivity.
  split; [auto|].
  exact (compute_hash_key_order Scenario.logger (Some "genesis") _ _ R D).
Defined.

(* ================================================================= *)
(** ** The table only grows *)

Lemma submit_step self q c :
  pending c = [] ->
  snd (submit self q c) = Conn (committed c) [] \/
  exists row,
    snd (submit self q c) = Conn (committed c ++ [row])%list [] /\
    log_id row = fresh_uuid (rq_env q) /\
    uuid_in (rq_resource_id q) = Some (resource_id row) /\
    created_at row = Some (current_timestamp (rq_env q)) /\
    ~ In (log_id row) (map log_id (committed c)) /\
    ~ In (hash row) (map hash (committed c)).
Proof.
  intros Hp. unfold submit.
  destruct (log_change self (rq_env q) (rq_actor_id q) (rq_action q)
              (rq_resource_type q) (rq_resource_id q)
              (rq_old_val q) (rq_new_val q) c) as [[id|err] c'] eqn:E.
  - right.
    apply log_change_returns in E
      as (a & act' & rtype' & row & _ & _ & _ & (a' & rid' & _ & Hrid & Hrow)
          & _ & -> & Hh & Hi).
    assert (V : visible c = committed c)
      by (unfold visible; rewrite Hp; apply app_nil_r).
    rewrite V in *. exists row. cbn [snd].
    split; [reflexivity|]. split; [now subst row|].
    split; [now subst row|]. split; [now subst row|]. split.
    + intros Hin. apply in_map_iff in Hin as (r & Hr & Hin).
      apply (existsb_false_not_in _ _ Hi) in Hin.
      apply String.eqb_neq in Hin. apply Hin. rewrite Hr. now subst row.
    + intros Hin. apply in_map_iff in Hin as (r & Hr & Hin).
      apply (existsb_false_not_in _ _ Hh) in Hin.
      apply String.eqb_neq in Hin. congruence.
  - left. apply log_change_raises in E. now subst c'.
Qed.

(** X3. Whatever calls of [log_change] are made one after the other,
    the rows committed before stay where and as they were; each call
    adds at most one row after them, and every row added carries the
    identifier and the time of one of the calls, and the UUID that the
    [resource_id] of that call denotes. *)
Theorem log_is_append_only self qs :
  forall c,
    pending c = [] ->
    exists added,
      committed (submit_all self qs c) = (committed c ++ added)%list /\
      pending (submit_all self qs c) = [] /\
      (List.length added <= List.length qs)%nat /\
      Forall (fun row =>
                exists q, In q qs /\
                          log_id row = fresh_uuid (rq_env q) /\
                          uuid_in (rq_resource_id q) = Some (resource_id row) /\
                          created_at row
                          = Some (current_timestamp (rq_env q)))
             added.
Proof.
  induction qs as [|q qs IH]; intros c Hp; simpl.
  - exists []. rewrite app_nil_r. repeat split; auto.
  - destruct (submit_step self q c Hp) as [E|(row & E & H1 & H2 & H3 & _)];
      rewrite E.
    + destruct (IH (Conn (committed c) []) eq_refl)
        as (added & Hc & Hpend & Hlen & Hall).
      exists added. cbn [committed] in Hc. repeat split; auto.
      eapply Forall_impl; [|exact Hall].
      intros r (q' & Hq & Hr). exists q'. split; [now right | exact Hr].
    + destruct (IH (Conn (committed c ++ [row])%list []) eq_refl)
        as (added & Hc & Hpend & Hlen & Hall).
      exists (row :: added). cbn [committed] in Hc.
      rewrite Hc, <- app_assoc. repeat split; auto.
      * simpl. lia.
      * constructor.
        -- exists q. split; [now left | auto].
        -- eapply Forall_impl; [|exact Hall].
           intros r (q' & Hq & Hr). exists q'. split; [now right | exact Hr].
Qed.

Lemma log_is_append_only_witness :
  pending (Conn [Scenario.entry1] []) = [] /\
  exists added,
    committed (submit_all Scenario.logger
                 [Scenario.request_b] (Conn [Scenario.entry1] []))
    = (committed (Conn [Scenario.entry1] []) ++ added)%list /\
    pending (submit_all Scenario.logger
               [Scenario.request_b] (Conn [Scenario.entry1] [])) = [] /\
    (List.length added <= List.length [Scenario.request_b])%nat /\
    Forall (fun row =>
              exists q, In q [Scenario.request_b] /\
                        log_id row = fresh_uuid (rq_env q) /\
                        uuid_in (rq_resource_id q) = Some (resource_id row) /\
                        created_at row
                        = Some (current_timestamp (rq_env q)))
           added.
Proof.
  split; [reflexivity|].
  exact (log_is_append_only Scenario.logger [Scenario.request_b]
           (Conn [Scenario.entry1] []) eq_refl).
Defined.

(** X4. The identifiers and the hashes of the committed rows stay
    pairwise distinct through any calls of [log_change]. *)
Theorem keys_stay_unique self qs :
  forall c,
    pending c = [] ->
    NoDup (map log_id (committed c)) ->
    NoDup (map hash (committed c)) ->
    NoDup (map log_id (committed (submit_all self qs c))) /\
    NoDup (map hash (committed (submit_all self qs c))).
Proof.
  induction qs as [|q qs IH]; intros c Hp Hid Hh; simpl; [auto|].
  destruct (submit_step self q c Hp)
    as [E|(row & E & _ & _ & _ & Hi & Hn)]; rewrite E.
  - apply IH; auto.
  - apply IH; cbn [committed pending]; auto.
    + rewrite map_app. apply NoDup_app; auto.
      * repeat constructor. intros [].
      * intros x Hx [<-|[]]. contradiction.
    + rewrite map_app. apply NoDup_app; auto.
      * repeat constructor. intros [].
      * intros x Hx [<-|[]]. contradiction.
Qed.

Lemma keys_stay_unique_witness :
  (pending Scenario.empty = [] /\
   NoDup (map log_id (committed Scenario.empty)) /\
   NoDup (map hash (committed Scenario.empty))) /\
  NoDup (map log_id
           (committed (submit_all Scenario.logger
                         [Scenario.request_a; Scenario.request_b]
                         Scenario.empty))) /\
  NoDup (map hash
           (committed (submit_all Scenario.logger
                         [Scenario.request_a; Scenario.request_b]
                         Scenario.empty))).
Proof.
  assert (H : NoDup (@nil string)) by constructor.
  split; [repeat split; exact H|].
  exact (keys_stay_unique Scenario.logger
           [Scenario.request_a; Scenario.request_b] Scenario.empty
           eq_refl H H).
Defined.

(* ================================================================= *)
(** ** Calls that the table rejects *)

Lemma varchar_rejects n s :
  (n < String.length s)%nat ->
  all_spaces (substring n (String.length s - n) s) = false ->
  varchar n s = None.
Proof.
  intros Hlen Hsp. unfold varchar.
  destruct (Nat.leb_spec (String.length s) n); [lia|]. now rewrite Hsp.
Qed.

Lemma log_change_needs_actor self e act rtype rid old new c :
  exists err,
    log_change self e None act rtype rid old new c
    = (Raise err, Conn (committed c) []).
Proof.
  destruct (log_change self e None act rtype rid old new c)
    as [[id|err] c'] eqn:E.
  - apply log_change_returns in E as (a & ? & ? & ? & Ha & _). discriminate.
  - exists err. apply log_change_raises in E. now subst.
Qed.

(** X5. A call without an actor ([actor_id] is [None], as the
    decorator passes when its first argument has no [id]) never
    commits: it raises, and the table is as before. *)
Theorem no_actor_is_rejected self e act rtype rid old new c :
  exists err,
    log_change self e None act rtype rid old new c
    = (Raise err, Conn (committed c) []).
Proof.
  destruct (log_change self e None act rtype rid old new c)
    as [[id|err] c'] eqn:E.
  - apply log_change_returns in E as (a & ? & ? & ? & Ha & _). discriminate.
  - exists err. apply log_change_raises in E. now subst.
Qed.

(** X6. An action of more than 50 characters, when what exceeds is not
    only spaces, is rejected by the column [VARCHAR(50)]: the call
    raises, and the table is as before. *)
Theorem long_action_is_rejected self e actor act rtype rid old new c :
  (50 < String.length act)%nat ->
  all_spaces (substring 50 (String.length act - 50) act) = false ->
  exists err,
    log_change self e actor act rtype rid old new c
    = (Raise err, Conn (committed c) []).
Proof.
  intros Hlen Hsp.
  destruct (log_change self e actor act rtype rid old new c)
    as [[id|err] c'] eqn:E.
  - apply log_change_returns in E as (a & act' & ? & ? & _ & Hv & _).
    rewrite (varchar_rejects 50 act Hlen Hsp) in Hv. discriminate.
  - exists err. apply log_change_raises in E. now subst.
Qed.

Lemma long_action_is_rejected_witness :
  ((50 < String.length long_action)%nat /\
   all_spaces (substring 50 (String.length long_action - 50) long_action)
   = false) /\
  exists err,
    log_change Scenario.logger (Scenario.env_at 0 Scenario.id_a None)
      (Some Scenario.u1) long_action (Some "INVOICE") Scenario.inv1
      JNull Scenario.draft Scenario.empty
    = (Raise err, Conn (committed Scenario.empty) []).
Proof.
  assert (H1 : (50 < String.length long_action)%nat)
    by (vm_compute; repeat constructor).
  assert (H2 : all_spaces (substring 50 (String.length long_action - 50)
                                     long_action) = false)
    by reflexivity.
  split; [auto|].
  exact (long_action_is_rejected Scenario.logger _ _ _ _ _ _ _ _ H1 H2).
Defined.

(* ================================================================= *)
(** ** What the verifier returns *)

Lemma row_verdict_cases self r :
  (hash r = recomputed self r /\ row_verdict self r = []) \/
  (hash r <> recomputed self r /\
   row_verdict self r = [BrokenLink (log_id r) (recomputed self r) (hash r)]).
Proof.
  unfold row_verdict, recomputed.
  destruct (String.eqb_spec
              (_compute_hash self (previous_hash r) (row_log_data r))
              (hash r)) as [E|E]; [left | right]; split; auto.
Qed.

Lemma flat_map_length_le {A B} (f : A -> list B) l :
  (forall x, List.length (f x) <= 1)%nat ->
  (List.length (flat_map f l) <= List.length l)%nat.
Proof.
  intros H. induction l as [|x l IH]; simpl; [lia|].
  rewrite length_app. specialize (H x). lia.
Qed.

(** X7. The flag [verify_chain_integrity] returns is [True] exactly
    when its list is empty; the list has at most one element for each
    row, and each element names a row of the table, with the hash
    stored in that row as [found] and a different digest, recomputed
    from that row, as [expected]. *)
Theorem verify_result_shape self rows :
  let result := verify_chain_integrity self rows in
  (fst result = true <-> snd result = []) /\
  (List.length (snd result) <= List.length rows)%nat /\
  (forall b, In b (snd result) ->
             exists r, In r rows /\ broken_id b = log_id r /\
                       found b = hash r /\
                       expected b = recomputed self r /\
                       expected b <> found b).
Proof.
  cbv zeta. rewrite verify_chain_integrity_breaks. cbn [fst snd].
  split; [|split].
  - rewrite Nat.eqb_eq. apply length_zero_iff_nil.
  - rewrite <- (sort_length created_asc rows).
    apply flat_map_length_le. intros r.
    destruct (row_verdict_cases self r) as [[_ ->]|[_ ->]]; simpl; lia.
  - intros b Hb. apply in_flat_map in Hb as (r & Hr & Hb).
    apply (proj1 (sort_in created_asc r rows)) in Hr.
    exists r. split; [exact Hr|].
    destruct (row_verdict_cases self r) as [[_ E]|[N E]];
      rewrite E in Hb; [contradiction|].
    destruct Hb as [<-|[]]. cbn. auto.
Qed.

(** X8. The verdict does not depend on the order in which the rows lie
    in the table: the flag is the same and the same broken links are
    reported. *)
Theorem verify_any_heap_order self rows rows' :
  Permutation rows rows' ->
  fst (verify_chain_integrity self rows)
  = fst (verify_chain_integrity self rows') /\
  Permutation (snd (verify_chain_integrity self rows))
              (snd (verify_chain_integrity self rows')).
Proof.
  intros P. rewrite !verify_chain_integrity_breaks. cbn [fst snd].
  assert (Q : Permutation
                (flat_map (row_verdict self) (sort created_asc rows))
                (flat_map (row_verdict self) (sort created_asc rows'))).
  { apply Permutation_flat_map. now rewrite !sort_perm. }
  split; [|exact Q]. now rewrite (Permutation_length Q).
Qed.

Lemma verify_any_heap_order_witness :
  Permutation Scenario.chain3 (rev Scenario.chain3) /\
  fst (verify_chain_integrity Scenario.logger Scenario.chain3)
  = fst (verify_chain_integrity Scenario.logger (rev Scenario.chain3)) /\
  Permutation
    (snd (verify_chain_integrity Scenario.logger Scenario.chain3))
    (snd (verify_chain_integrity Scenario.logger (rev Scenario.chain3))).
Proof.
  assert (P : Permutation Scenario.chain3 (rev Scenario.chain3))
    by apply Permutation_rev.
  split; [exact P|].
  exact (verify_any_heap_order Scenario.logger _ _ P).
Defined.

(* ================================================================= *)
(** ** Overwriting one column of one row *)

Lemma sort_overwrite k f rows :
  (forall r, created_at (f r) = created_at r) ->
  sort created_asc (overwrite k f rows)
  = overwrite k f (sort created_asc rows).
Proof.
  intros Hf. unfold overwrite. apply sort_map. intros x y.
  unfold created_asc.
  destruct (log_id x =? k), (log_id y =? k); now rewrite ?Hf.
Qed.

Lemma overwrite_absent k f rows :
  ~ In k (map log_id rows) -> overwrite k f rows = rows.
Proof.
  induction rows as [|x l IH]; simpl; intros H; [reflexivity|].
  destruct (String.eqb_spec (log_id x) k) as [E|E]; [tauto|].
  f_equal. apply IH. tauto.
Qed.

Lemma flat_map_overwrite self f r l :
  NoDup (map log_id l) -> In r l ->
  (forall x, In x l -> row_verdict self x = []) ->
  flat_map (row_verdict self) (overwrite (log_id r) f l)
  = row_verdict self (f r).
Proof.
  induction l as [|x l IH]; simpl; intros Hnd Hin Hok; [contradiction|].
  inversion Hnd as [|? ? Hx Hl]; subst.
  destruct (String.eqb_spec (log_id x) (log_id r)) as [E|E].
  - assert (x = r) as ->.
    { destruct Hin as [|Hin]; [assumption|]. exfalso. apply Hx.
      rewrite E. now apply in_map. }
    fold (overwrite (log_id r) f l).
    rewrite overwrite_absent by assumption.
    assert (Z : flat_map (row_verdict self) l = [])
      by (apply flat_map_nil_iff; auto).
    rewrite Z. apply app_nil_r.
  - rewrite (Hok x) by auto. simpl.
    fold (overwrite (log_id r) f l). apply IH; auto.
    destruct Hin as [->|]; [contradiction | assumption].
Qed.

Lemma verify_overwrite self f rows r :
  (forall x, created_at (f x) = created_at x) ->
  NoDup (map log_id rows) ->
  verify_chain_integrity self rows = (true, []) ->
  In r rows ->
  verify_chain_integrity self (overwrite (log_id r) f rows)
  = (Nat.eqb (List.length (row_verdict self (f r))) 0,
     row_verdict self (f r)).
Proof.
  intros Hf Hnd Hvalid Hin.
  pose proof (proj1 (valid_chain_iff self rows) Hvalid) as Hrows.
  rewrite verify_chain_integrity_breaks, sort_overwrite by exact Hf.
  rewrite flat_map_overwrite; [reflexivity | | |].
  - eapply Permutation_NoDup; [|exact Hnd].
    apply Permutation_map. symmetry. apply sort_perm.
  - now apply (sort_in created_asc).
  - intros x Hx. apply Hrows. now apply (proj1 (sort_in created_asc x rows)).
Qed.

(** X9. In a table that verifies, once the stored [hash] of one entry
    is overwritten with another value, the verifier reports that entry
    and no other one (not even the entry chained to the old hash);
    [expected] is the hash that was stored before. *)
Theorem hash_overwrite_reported self rows r h :
  NoDup (map log_id rows) ->
  verify_chain_integrity self rows = (true, []) ->
  In r rows ->
  h <> hash r ->
  verify_chain_integrity self (overwrite (log_id r) (with_hash h) rows)
  = (false, [BrokenLink (log_id r) (hash r) h]).
Proof.
  intros Hnd Hvalid Hin Hh.
  rewrite verify_overwrite; auto.
  pose proof (proj1 (valid_chain_iff self rows) Hvalid r Hin) as Hr.
  apply row_verdict_nil in Hr.
  destruct (row_verdict_cases self (with_hash h r)) as [[E _]|[_ ->]].
  - exfalso. apply Hh. cbn [with_hash hash] in E. rewrite E, Hr.
    reflexivity.
  - cbn [with_hash log_id hash List.length Nat.eqb].
    unfold recomputed. cbn [with_hash previous_hash].
    fold (with_hash h r).
    replace (row_log_data (with_hash h r)) with (row_log_data r)
      by reflexivity.
    now rewrite <- Hr.
Qed.

Lemma hash_overwrite_reported_witness :
  let h := Scenario.hash3 in
  (NoDup (map log_id Scenario.chain3) /\
   verify_chain_integrity Scenario.logger Scenario.chain3 = (true, []) /\
   In Scenario.entry1 Scenario.chain3 /\
   h <> hash Scenario.entry1) /\
  verify_chain_integrity Scenario.logger
    (overwrite (log_id Scenario.entry1) (with_hash h) Scenario.chain3)
  = (false, [BrokenLink (log_id Scenario.entry1) (hash Scenario.entry1) h]).
Proof.
  assert (H1 : NoDup (map log_id Scenario.chain3))
    by (repeat constructor; simpl; intuition discriminate).
  assert (H2 : verify_chain_integrity Scenario.logger Scenario.chain3
               = (true, []))
    by (vm_compute; reflexivity).
  assert (H3 : In Scenario.entry1 Scenario.chain3) by (simpl; auto).
  assert (H4 : Scenario.hash3 <> hash Scenario.entry1)
    by (vm_compute; discriminate).
  split; [auto|].
  exact (hash_overwrite_reported _ _ _ _ H1 H2 H3 H4).
Defined.

(** X10. In a table that verifies, once the [action] of one entry is
    overwritten with another text, the verifier reports that entry and
    no other one, unless the new text of the entry collides with the
    old one under the key. *)
Theorem action_overwrite_reported self rows r a :
  NoDup (map log_id rows) ->
  verify_chain_integrity self rows = (true, []) ->
  In r rows ->
  a <> action r ->
  no_collision self
    (chain_message (previous_hash r) (row_log_data (with_action a r)))
    (chain_message (previous_hash r) (row_log_data r)) ->
  verify_chain_integrity self (overwrite (log_id r) (with_action a) rows)
  = (false,
     [BrokenLink (log_id r) (recomputed self (with_action a r)) (hash r)]).
Proof.
  intros Hnd Hvalid Hin Ha Hcol.
  rewrite verify_overwrite; auto.
  pose proof (proj1 (valid_chain_iff self rows) Hvalid r Hin) as Hr.
  apply row_verdict_nil in Hr.
  destruct (row_verdict_cases self (with_action a r)) as [[E _]|[_ ->]].
  - exfalso. apply Ha.
    cbn [with_action hash] in E. unfold recomputed in E.
    cbn [with_action previous_hash] in E. fold (with_action a r) in E.
    rewrite Hr, !compute_hash_unfold in E. symmetry in E.
    apply Hcol in E. unfold row_log_data in E.
    rewrite !chain_message_log_data in E.
    cbn [with_action action] in E.
    apply append_inv_head in E.
    now apply quote_prefix_free in E as [E _].
  - reflexivity.
Qed.

Lemma action_overwrite_reported_witness :
  let r := Scenario.entry2 in
  (NoDup (map log_id Scenario.chain3) /\
   verify_chain_integrity Scenario.logger Scenario.chain3 = (true, []) /\
   In r Scenario.chain3 /\
   "CREATE" <> action r /\
   no_collision Scenario.logger
     (chain_message (previous_hash r)
        (row_log_data (with_action "CREATE" r)))
     (chain_message (previous_hash r) (row_log_data r))) /\
  verify_chain_integrity Scenario.logger
    (overwrite (log_id r) (with_action "CREATE") Scenario.chain3)
  = (false,
     [BrokenLink (log_id r)
        (recomputed Scenario.logger (with_action "CREATE" r)) (hash r)]).
Proof.
  assert (H1 : NoDup (map log_id Scenario.chain3))
    by (repeat constructor; simpl; intuition discriminate).
  assert (H2 : verify_chain_integrity Scenario.logger Scenario.chain3
               = (true, []))
    by (vm_compute; reflexivity).
  assert (H3 : In Scenario.entry2 Scenario.chain3) by (simpl; auto).
  assert (H4 : "CREATE" <> action Scenario.entry2)
    by (vm_compute; discriminate).
  assert (H5 : no_collision Scenario.logger
                 (chain_message (previous_hash Scenario.entry2)
                    (row_log_data (with_action "CREATE" Scenario.entry2)))
                 (chain_message (previous_hash Scenario.entry2)
                    (row_log_data Scenario.entry2)))
    by (intros H; vm_compute in H; discriminate).
  split; [auto|].
  exact (action_overwrite_reported _ _ _ _ H1 H2 H3 H4 H5).
Defined.

(** X11. A row whose [hash] is the digest of its own columns can be
    added to a table that verifies, whatever its [previous_hash] and
    its place in the order of [created_at]: the table still
    verifies. *)
Theorem consistent_row_accepted self rows x :
  verify_chain_integrity self rows = (true, []) ->
  hash x = recomputed self x ->
  verify_chain_integrity self (rows ++ [x])%list = (true, []).
Proof.
  intros Hvalid Hx.
  pose proof (proj1 (valid_chain_iff self rows) Hvalid) as Hrows.
  apply valid_chain_iff. intros r Hr.
  apply in_app_or in Hr as [Hr|[<-|[]]]; [now apply Hrows|].
  destruct (row_verdict_cases self x) as [[_ E]|[N _]];
    [exact E | contradiction].
Qed.

Lemma consistent_row_accepted_witness :
  (verify_chain_integrity Scenario.logger [Scenario.entry1] = (true, []) /\
   hash Scenario.entry3 = recomputed Scenario.logger Scenario.entry3 /\
   previous_hash Scenario.entry3 <> Some (hash Scenario.entry1)) /\
  verify_chain_integrity Scenario.logger
    ([Scenario.entry1] ++ [Scenario.entry3])%list = (true, []).
Proof.
  assert (H1 : verify_chain_integrity Scenario.logger [Scenario.entry1]
               = (true, []))
    by (vm_compute; reflexivity).
  assert (H2 : hash Scenario.entry3
               = recomputed Scenario.logger Scenario.entry3)
    by (vm_compute; reflexivity).
  assert (H3 : previous_hash Scenario.entry3 <> Some (hash Scenario.entry1))
    by (vm_compute; discriminate).
  split; [auto|].
  exact (consistent_row_accepted _ _ _ H1 H2).
Defined.

(* ================================================================= *)
(** ** More on the history of a resource *)




Lemma created_instant_equal a b :
  created_desc a b = true -> created_desc b a = true ->
  created_instant a = created_instant b.
Proof.
  unfold created_desc, timestamp_leb, created_instant.
  destruct (created_at a), (created_at b); cbn [option_map];
    intros H1 H2; try discriminate; [|reflexivity].
  apply Z.leb_le in H1, H2. f_equal. lia.
Qed.

Lemma nodup_map_filter {A B} (f : A -> B) (g : A -> bool) l :
  NoDup (map f l) -> NoDup (map f (filter g l)).
Proof.
  induction l as [|x l IH]; cbn [map filter]; intros H; [constructor|].
  inversion H as [|? ? Hx Hl]; subst.
  destruct (g x); cbn [map]; [|auto].
  constructor; [|auto].
  intros Hin. apply Hx. apply in_map_iff in Hin as (y & Hy & Hin).
  apply filter_In in Hin as [Hin _]. rewrite <- Hy. now apply in_map.
Qed.

Lemma nodup_map_injective {A B} (f : A -> B) l a b :
  NoDup (map f l) -> In a l -> In b l -> f a = f b -> a = b.
Proof.
  induction l as [|x l IH]; cbn [map]; intros H Ha Hb E; [contradiction|].
  inversion H as [|? ? Hx Hl]; subst.
  destruct Ha as [->|Ha], Hb as [->|Hb]; auto.
  - exfalso. apply Hx. rewrite E. now apply in_map.
  - exfalso. apply Hx. rewrite <- E. now apply in_map.
Qed.

(** With distinct times there is one way to put the rows in order. *)
Lemma order_determined rows (f : audit_log -> bool) ordered :
  distinct_times rows ->
  Permutation ordered (filter f rows) ->
  StronglySorted (fun a b => created_desc a b = true) ordered ->
  ordered = sort created_desc (filter f rows).
Proof.
  intros D P S.
  apply (sorted_perm_eq created_desc); [|exact S| |].
  - intros a b Ha Hb H1 H2.
    apply (nodup_map_injective created_instant (filter f rows));
      [now apply nodup_map_filter | | |].
    + eapply Permutation_in; [exact P | exact Ha].
    + eapply Permutation_in; [exact P | exact Hb].
    + now apply created_instant_equal.
  - apply sort_sorted; [apply created_desc_total | apply created_desc_trans].
  - eapply Permutation_trans; [exact P|].
    apply Permutation_sym, sort_perm.
Qed.

(** X13. In a table where no two rows have the same [created_at], the
    result is determined, whatever order the server takes the rows
    in; so what is returned with a smaller limit is the beginning of
    what is returned with a larger one. *)
Theorem history_limit_prefix rows rtype rid id n k small large :
  uuid_in rid = Some id ->
  distinct_times rows ->
  may_return rows rtype rid n small ->
  may_return rows rtype rid (n + k) large ->
  small = get_resource_history rows rtype rid n /\
  small = firstn n large.
Proof.
  intros _ D (o1 & P1 & S1 & ->) (o2 & P2 & S2 & ->).
  rewrite (order_determined rows _ o1 D P1 S1).
  rewrite (order_determined rows _ o2 D P2 S2).
  split; [reflexivity|].
  rewrite firstn_map, firstn_firstn.
  now replace (Nat.min n (n + k)) with n by lia.
Qed.

Lemma get_resource_history_may_return rows rtype rid limit :
  may_return rows rtype rid limit
             (get_resource_history rows rtype rid limit).
Proof.
  exists (sort created_desc (filter (matches rtype rid) rows)).
  split; [apply sort_perm|].
  split; [|reflexivity].
  apply sort_sorted; [apply created_desc_total | apply created_desc_trans].
Qed.

Lemma history_limit_prefix_witness :
  let rid := "987FCDEB-51A2-43D7-9B56-243678901234" in
  let small := get_resource_history Scenario.chain3 (Some "INVOICE") rid 1 in
  let large := get_resource_history Scenario.chain3 (Some "INVOICE") rid 3 in
  (uuid_in rid = Some Scenario.inv1 /\
   distinct_times Scenario.chain3 /\
   may_return Scenario.chain3 (Some "INVOICE") rid 1 small /\
   may_return Scenario.chain3 (Some "INVOICE") rid (1 + 2) large) /\
  small = get_resource_history Scenario.chain3 (Some "INVOICE") rid 1 /\
  small = firstn 1 large.
Proof.
  assert (H1 : uuid_in "987FCDEB-51A2-43D7-9B56-243678901234"
               = Some Scenario.inv1)
    by (vm_compute; reflexivity).
  assert (H2 : distinct_times Scenario.chain3).
  { unfold distinct_times. vm_compute.
    repeat constructor; simpl; intuition discriminate. }
  pose proof (get_resource_history_may_return Scenario.chain3
                (Some "INVOICE") "987FCDEB-51A2-43D7-9B56-243678901234" 1)
    as H3.
  pose proof (get_resource_history_may_return Scenario.chain3
                (Some "INVOICE") "987FCDEB-51A2-43D7-9B56-243678901234"
                (1 + 2)) as H4.
  split; [auto|].
  exact (history_limit_prefix _ _ _ _ _ _ _ _ H1 H2 H3 H4).
Defined.

Lemma forall_filter {A} (P : A -> Prop) (f : A -> bool) l :
  Forall P l -> Forall P (filter f l).
Proof.
  rewrite !Forall_forall. intros H x Hx.
  apply filter_In in Hx as [Hx _]. auto.
Qed.

Lemma varchar_short n s : (String.length s <= n)%nat -> varchar n s = Some s.
Proof.
  intros H. unfold varchar.
  destruct (Nat.leb_spec (String.length s) n); [reflexivity | lia].
Qed.

(** X14. After a call of [log_change] that returns, made when no two
    stored rows have the same [created_at] and the server clock is
    later than all of them, the history of the resource starts with
    the new entry, followed by the history as it was; the entry shows
    the UUID of the actor and the digest of the call, and shows [None]
    for a value that was false. *)
Theorem appended_entry_heads_history
    self e actor act t rid old new c id c' n :
  pending c = [] ->
  (String.length t <= 50)%nat ->
  distinct_times (committed c) ->
  Forall (fun r => exists ts, created_at r = Some ts /\
                              (instant ts < instant (current_timestamp e))%Z)
         (committed c) ->
  log_change self e actor act (Some t) rid old new c = (Return id, c') ->
  exists entry,
    get_resource_history (committed c') (Some t) rid (S n)
    = entry :: get_resource_history (committed c) (Some t) rid n /\
    distinct_times (committed c') /\
    h_timestamp entry = Some (current_timestamp e) /\
    (exists a, actor = Some a /\ uuid_in a = Some (h_actor entry)) /\
    h_old_values entry = (if truthy old then old else JNull) /\
    h_new_values entry = (if truthy new then new else JNull) /\
    h_hash entry
    = _compute_hash self (Some (tip_hash (committed c)))
        (log_data_dict (py_str actor) act (t ++ ":" ++ rid)
                       (JStr (isoformat (utcnow e))) old new).
Proof.
  intros Hp Hlen Hd Hold H.
  apply log_change_returns in H
    as (a & act' & rtype' & row & -> & _ & Hrt
        & (a' & rid' & Ha & Hrid & Hrow) & _ & -> & _).
  assert (V : visible c = committed c)
    by (unfold visible; rewrite Hp; apply app_nil_r).
  rewrite V in *. cbn [varchar_null] in Hrt.
  rewrite (varchar_short 50 t Hlen) in Hrt. cbn [option_map] in Hrt.
  injection Hrt as <-.
  exists (history_of_row row). cbn [committed].
  assert (Hm : matches (Some t) rid row = true).
  { apply matches_iff. exists t. subst row.
    cbn [resource_type resource_id]. auto. }
  split; [|split].
  - unfold get_resource_history.
    rewrite filter_app. cbn [filter]. rewrite Hm.
    rewrite sort_snoc_front; [reflexivity|].
    apply forall_filter. eapply Forall_impl; [|exact Hold].
    intros r (ts & Hr & Hlt). unfold created_desc. rewrite Hr.
    subst row. cbn [created_at timestamp_leb]. apply Z.leb_gt. lia.
  - unfold distinct_times. rewrite map_app. cbn [map].
    apply NoDup_app; [exact Hd | repeat constructor; intros [] |].
    intros x Hx [<-|[]].
    apply in_map_iff in Hx as (r & Hr & Hin).
    rewrite Forall_forall in Hold.
    destruct (Hold r Hin) as (ts & Hts & Hlt).
    subst row. unfold created_instant in Hr. rewrite Hts in Hr.
    cbn [created_at option_map] in Hr. injection Hr as Hr. lia.
  - subst row. unfold history_of_row, to_jsonb.
    cbn [h_timestamp h_actor h_old_values h_new_values h_hash created_at
         actor_id old_values new_values hash py_str].
    split; [reflexivity|]. split; [exists a; auto|].
    split; [now destruct (truthy old)|].
    split; [now destruct (truthy new) | reflexivity].
Qed.

Lemma appended_entry_heads_history_witness :
  let e := Scenario.env_at 1 Scenario.id_b None in
  let c := Conn [Scenario.entry1] [] in
  let actor := "{123E4567E89B12D3A456426614174000}" in
  let result :=
    log_change Scenario.logger e (Some actor) "UPDATE"
      (Some "INVOICE") Scenario.inv1 Scenario.draft Scenario.paid c in
  (pending c = [] /\ (String.length "INVOICE" <= 50)%nat /\
   distinct_times (committed c) /\
   Forall (fun r => exists ts, created_at r = Some ts /\
                               (instant ts < instant (current_timestamp e))%Z)
          (committed c) /\
   result = (Return Scenario.id_b, snd result)) /\
  exists entry,
    get_resource_history (committed (snd result)) (Some "INVOICE")
                         Scenario.inv1 2
    = entry :: get_resource_history (committed c) (Some "INVOICE")
                                    Scenario.inv1 1 /\
    distinct_times (committed (snd result)) /\
    h_timestamp entry = Some (current_timestamp e) /\
    (exists a, Some actor = Some a /\ uuid_in a = Some (h_actor entry)) /\
    h_old_values entry
    = (if truthy Scenario.draft then Scenario.draft else JNull) /\
    h_new_values entry
    = (if truthy Scenario.paid then Scenario.paid else JNull) /\
    h_hash entry
    = _compute_hash Scenario.logger
        (Some (tip_hash (committed c)))
        (log_data_dict (py_str (Some actor)) "UPDATE"
                       ("INVOICE" ++ ":" ++ Scenario.inv1)
                       (JStr (isoformat (utcnow e)))
                       Scenario.draft Scenario.paid).
Proof.
  assert (H1 : pending (Conn [Scenario.entry1] []) = []) by reflexivity.
  assert (H2 : (String.length "INVOICE" <= 50)%nat)
    by (vm_compute; repeat constructor).
  assert (H0 : distinct_times (committed (Conn [Scenario.entry1] []))).
  { unfold distinct_times. vm_compute.
    repeat constructor; simpl; intuition discriminate. }
  assert (H3 : Forall (fun r =>
                         exists ts, created_at r = Some ts /\
                           (instant ts
                            < instant (current_timestamp
                                         (Scenario.env_at 1 Scenario.id_b
                                                          None)))%Z)
                      (committed (Conn [Scenario.entry1] []))).
  { repeat constructor. eexists. split; [reflexivity|].
    vm_compute. reflexivity. }
  assert (H4 : log_change Scenario.logger
                 (Scenario.env_at 1 Scenario.id_b None)
                 (Some "{123E4567E89B12D3A456426614174000}") "UPDATE"
                 (Some "INVOICE") Scenario.inv1
                 Scenario.draft Scenario.paid (Conn [Scenario.entry1] [])
               = (Return Scenario.id_b,
                  snd (log_change Scenario.logger
                         (Scenario.env_at 1 Scenario.id_b None)
                         (Some "{123E4567E89B12D3A456426614174000}")
                         "UPDATE" (Some "INVOICE")
                         Scenario.inv1 Scenario.draft Scenario.paid
                         (Conn [Scenario.entry1] []))))
    by (vm_compute; reflexivity).
  split; [auto|].
  exact (appended_entry_heads_history _ _ _ _ _ _ _ _ _ _ _ 1%nat
           H1 H2 H0 H3 H4).
Defined.

(** The actor of the new entry, written with braces and in upper case
    by the caller, is read back in the form of the column. *)
Example actor_read_back :
  map h_actor
      (get_resource_history
         (committed
            (snd (log_change Scenario.logger
                    (Scenario.env_at 1 Scenario.id_b None)
                    (Some "{123E4567E89B12D3A456426614174000}") "UPDATE"
                    (Some "INVOICE") Scenario.inv1
                    Scenario.draft Scenario.paid
                    (Conn [Scenario.entry1] []))))
         (Some "INVOICE") Scenario.inv1 1)
  = [Scenario.u1].
Proof. vm_compute. reflexivity. Qed.

(** X15. A call of [log_change] for a resource with another UUID
    leaves the history of this resource as it was, whether the call
    returns or raises. *)
Theorem history_of_other_resource
    self e actor act rtype' rid' old new c rtype rid id n :
  pending c = [] ->
  uuid_in rid = Some id ->
  uuid_in rid' <> Some id ->
  get_resource_history
    (committed (snd (log_change self e actor act rtype' rid' old new c)))
    rtype rid n
  = get_resource_history (committed c) rtype rid n.
Proof.
  intros Hp Hid Hrid.
  destruct (log_change self e actor act rtype' rid' old new c)
    as [[i|err] c'] eqn:E; cbn [snd].
  - apply log_change_returns in E
      as (a & act' & rt & row & _ & _ & _ & (a' & r' & _ & Hr' & Hrow)
          & _ & -> & _).
    assert (V : visible c = committed c)
      by (unfold visible; rewrite Hp; apply app_nil_r).
    rewrite V in *. cbn [committed]. unfold get_resource_history.
    rewrite filter_app. cbn [filter].
    assert (Hm : matches rtype rid row = false).
    { destruct (matches rtype rid row) eqn:M; [|reflexivity].
      apply matches_iff in M as (t & _ & _ & M).
      subst row. cbn [resource_id] in M. congruence. }
    now rewrite Hm, app_nil_r.
  - apply log_change_raises in E. now subst c'.
Qed.

Lemma history_of_other_resource_witness :
  let c := Conn [Scenario.entry1] [] in
  (pending c = [] /\
   uuid_in "987FCDEB-51A2-43D7-9B56-243678901234" = Some Scenario.inv1 /\
   uuid_in Scenario.u1 <> Some Scenario.inv1) /\
  get_resource_history
    (committed
       (snd (log_change Scenario.logger
               (Scenario.env_at 1 Scenario.id_b None) (Some Scenario.u1)
               "UPDATE" (Some "INVOICE") Scenario.u1
               Scenario.draft Scenario.paid c)))
    (Some "INVOICE") "987FCDEB-51A2-43D7-9B56-243678901234" 10
  = get_resource_history (committed c) (Some "INVOICE")
      "987FCDEB-51A2-43D7-9B56-243678901234" 10.
Proof.
  assert (H1 : pending (Conn [Scenario.entry1] []) = []) by reflexivity.
  assert (H2 : uuid_in "987FCDEB-51A2-43D7-9B56-243678901234"
               = Some Scenario.inv1)
    by (vm_compute; reflexivity).
  assert (H3 : uuid_in Scenario.u1 <> Some Scenario.inv1)
    by (vm_compute; discriminate).
  split; [auto|].
  exact (history_of_other_resource _ _ _ _ _ _ _ _ _ _ _ _ _ H1 H2 H3).
Defined.

(* ================================================================= *)
(** ** The connection pool *)

(** A [resource_id] that is not the text of a UUID makes the method
    raise; the connection goes back into the pool. *)
Example history_of_unknown_raises :
  call_get_resource_history true (Some "INVOICE") "unknown" 2
                            system_at_rest
  = (Failed (DatabaseError (InvalidTextRepresentation "resource_id")),
     system_at_rest).
Proof. reflexivity. Qed.

Lemma with_connection_frame {A} reachable (body : db A) s :
  let s' := snd (with_connection reachable body s) in
  used (pool s') = used (pool s) /\
  closed (pool s') = closed (pool s) /\
  minconn (pool s') = minconn (pool s) /\
  maxconn (pool s') = maxconn (pool s) /\
  resources s' = resources s /\
  (audit_logs s' = audit_logs s \/
   audit_logs s' = committed (snd (body (Conn (audit_logs s) [])))).
Proof.
  unfold with_connection, getconn, putconn.
  destruct s as [[mi ma i u cl] rows app]. cbn [pool audit_logs resources
    closed idle used minconn maxconn].
  destruct cl; [cbn; auto 10|].
  destruct (Nat.ltb 0 i); [|destruct (Nat.eqb u ma); [cbn; auto 10|];
                            destruct reachable; [|cbn; auto 10]];
    destruct (body (Conn rows [])) as [[a|x] c];
    cbn; repeat split; auto; lia.
Qed.

Lemma read_only_frame {A} reachable (f : connection -> A) s :
  audit_logs (snd (with_connection reachable
                     (fun c => (Return (f c), c)) s))
  = audit_logs s.
Proof.
  destruct (with_connection_frame reachable
              (fun c => (Return (f c), c)) s)
    as (_ & _ & _ & _ & _ & [H|H]); exact H.
Qed.

Lemma track_changes_frame self r1 r2 r3 e actor rtype rid body s :
  let s' := snd (track_changes self r1 r2 r3 e actor rtype rid body s) in
  used (pool s') = used (pool s) /\ closed (pool s') = closed (pool s) /\
  minconn (pool s') = minconn (pool s) /\
  maxconn (pool s') = maxconn (pool s).
Proof.
  unfold track_changes, _get_current_state, call_log_change.
  match goal with
  | |- context [with_connection r1 ?b s] =>
      pose proof (with_connection_frame r1 b s) as F1;
      destruct (with_connection r1 b s) as [[old|err] s1]
  end; cbn [snd] in *; [|tauto].
  destruct (body (resources s1)) as [[msg|] app]; cbn [snd]; [tauto|].
  match goal with
  | |- context [with_connection r2 ?b ?s2] =>
      pose proof (with_connection_frame r2 b s2) as F2;
      destruct (with_connection r2 b s2) as [[new|err] s3]
  end; cbn [snd pool] in *; [|intuition congruence].
  destruct (py_eq old new); cbn [snd]; [intuition congruence|].
  match goal with
  | |- context [with_connection r3 ?b s3] =>
      pose proof (with_connection_frame r3 b s3) as F3;
      destruct (with_connection r3 b s3) as [[id|err] s4]
  end; cbn [snd] in *; intuition congruence.
Qed.

(** X16. No method keeps a connection: after any call, whether it
    returned or raised, as many connections are handed out as before,
    and the pool is open or closed as before. *)
Theorem no_connection_is_kept self op s :
  used (pool (snd (perform self op s))) = used (pool s) /\
  closed (pool (snd (perform self op s))) = closed (pool s).
Proof.
  destruct op as [r q|r|r rt rid n|r rt rid|r1 r2 r3 e a rt rid body];
    cbn [perform].
  - unfold call_log_change.
    match goal with
    | |- context [with_connection r ?b s] =>
        pose proof (with_connection_frame r b s) as F;
        destruct (with_connection r b s)
    end. cbn [snd] in *. tauto.
  - unfold call_verify_chain_integrity.
    match goal with
    | |- context [with_connection r ?b s] =>
        pose proof (with_connection_frame r b s) as F;
        destruct (with_connection r b s)
    end. cbn [snd] in *. tauto.
  - unfold call_get_resource_history.
    match goal with
    | |- context [with_connection r ?b s] =>
        pose proof (with_connection_frame r b s) as F;
        destruct (with_connection r b s)
    end. cbn [snd] in *. tauto.
  - unfold _get_current_state.
    match goal with
    | |- context [with_connection r ?b s] =>
        pose proof (with_connection_frame r b s) as F;
        destruct (with_connection r b s)
    end. cbn [snd] in *. tauto.
  - pose proof (track_changes_frame self r1 r2 r3 e a rt rid body s) as F.
    destruct (track_changes self r1 r2 r3 e a rt rid body s).
    cbn [snd] in *. tauto.
Qed.

Lemma with_connection_closed {A} reachable (body : db A) s :
  closed (pool s) = true ->
  with_connection reachable body s
  = (Failed (PoolError "connection pool is closed"), s).
Proof.
  intros H. unfold with_connection, getconn. now rewrite H.
Qed.

(** X17. Once [close] has returned, every method raises the error of
    a closed pool and changes nothing: no row is read or written, the
    block under [track_changes] is not run, and a second [close]
    raises as well. *)
Theorem closed_logger_refuses self s s1 :
  close s = (Done tt, s1) ->
  (forall op,
      perform self op s1
      = (Some (PoolError "connection pool is closed"), s1)) /\
  close s1 = (Failed (PoolError "connection pool is closed"), s1) /\
  audit_logs s1 = audit_logs s /\ resources s1 = resources s.
Proof.
  unfold close. destruct (closed (pool s)) eqn:C; [discriminate|].
  intros H. injection H as <-.
  split; [|cbn; auto].
  intros [r q|r|r rt rid n|r rt rid|r1 r2 r3 e a rt rid body];
    cbn [perform];
    unfold call_log_change, call_verify_chain_integrity,
      call_get_resource_history, track_changes, _get_current_state;
    now rewrite with_connection_closed.
Qed.

Lemma closed_logger_refuses_witness :
  close system_at_rest
  = (Done tt, System (Pool 1 10 1 0 true) Scenario.chain3 no_tables) /\
  (forall op,
      perform Scenario.logger op
              (System (Pool 1 10 1 0 true) Scenario.chain3 no_tables)
      = (Some (PoolError "connection pool is closed"),
         System (Pool 1 10 1 0 true) Scenario.chain3 no_tables)) /\
  close (System (Pool 1 10 1 0 true) Scenario.chain3 no_tables)
  = (Failed (PoolError "connection pool is closed"),
     System (Pool 1 10 1 0 true) Scenario.chain3 no_tables) /\
  audit_logs (System (Pool 1 10 1 0 true) Scenario.chain3 no_tables)
  = audit_logs system_at_rest /\
  resources (System (Pool 1 10 1 0 true) Scenario.chain3 no_tables)
  = resources system_at_rest.
Proof.
  assert (H : close system_at_rest
              = (Done tt,
                 System (Pool 1 10 1 0 true) Scenario.chain3 no_tables))
    by reflexivity.
  split; [exact H|].
  exact (closed_logger_refuses Scenario.logger _ _ H).
Defined.

Lemma with_connection_at_rest {A} reachable (body : db A) s :
  pool_at_rest (pool s) ->
  let r := fst (with_connection reachable body s) in
  let s' := snd (with_connection reachable body s) in
  pool_at_rest (pool s') /\
  (has_capacity (pool s) -> has_capacity (pool s')) /\
  (has_capacity (pool s) -> is_pool_error (raised r) = false) /\
  ((0 < minconn (pool s))%nat -> is_connect_error (raised r) = false) /\
  (is_pool_error (raised r) = false ->
   is_connect_error (raised r) = false -> has_capacity (pool s')).
Proof.
  unfold pool_at_rest, has_capacity, with_connection, getconn, putconn.
  destruct s as [[mi ma i u cl] rows app].
  cbn [pool audit_logs resources closed idle used minconn maxconn].
  intros (-> & -> & Hi & Hm).
  destruct (Nat.ltb_spec 0 i) as [Hpos|Hzero].
  - destruct (body (Conn rows [])) as [[a|x] c];
      cbn [fst snd pool closed idle used minconn maxconn raised
           is_pool_error is_connect_error];
      (destruct (Nat.ltb_spec (i - 1) mi); [|lia]);
      repeat split; auto; try lia.
  - assert (i = 0)%nat as -> by lia. assert (mi = 0)%nat as -> by lia.
    destruct (Nat.eqb_spec 0 ma) as [<-|Hma].
    + cbn. repeat split; auto; try lia; intros; try discriminate.
    + destruct reachable.
      * destruct (body (Conn rows [])) as [[a|x] c];
          cbn [fst snd pool closed idle used minconn maxconn raised
               is_pool_error is_connect_error Nat.ltb Nat.leb];
          repeat split; auto; try lia.
      * cbn. repeat split; auto; try lia; intros; discriminate.
Qed.

Lemma perform_at_rest self op s :
  pool_at_rest (pool s) -> has_capacity (pool s) ->
  pool_at_rest (pool (snd (perform self op s))) /\
  has_capacity (pool (snd (perform self op s))) /\
  is_pool_error (fst (perform self op s)) = false /\
  ((0 < minconn (pool s))%nat ->
   is_connect_error (fst (perform self op s)) = false) /\
  minconn (pool (snd (perform self op s))) = minconn (pool s).
Proof.
  intros R C.
  assert (Step : forall A r (b : db A) s0,
             pool_at_rest (pool s0) -> has_capacity (pool s0) ->
             pool_at_rest (pool (snd (with_connection r b s0))) /\
             has_capacity (pool (snd (with_connection r b s0))) /\
             is_pool_error (raised (fst (with_connection r b s0))) = false /\
             ((0 < minconn (pool s0))%nat ->
              is_connect_error (raised (fst (with_connection r b s0)))
              = false) /\
             minconn (pool (snd (with_connection r b s0)))
             = minconn (pool s0)).
  { intros A r b s0 R0 C0.
    destruct (with_connection_at_rest r b s0 R0) as (H1 & H2 & H3 & H4 & _).
    destruct (with_connection_frame r b s0) as (_ & _ & H5 & _).
    auto 10. }
  destruct op as [r q|r|r rt rid n|r rt rid|r1 r2 r3 e a rt rid body];
    cbn [perform].
  - unfold call_log_change.
    match goal with
    | |- context [with_connection r ?b s] =>
        pose proof (Step _ r b s R C) as F;
        destruct (with_connection r b s)
    end. exact F.
  - unfold call_verify_chain_integrity.
    match goal with
    | |- context [with_connection r ?b s] =>
        pose proof (Step _ r b s R C) as F;
        destruct (with_connection r b s)
    end. exact F.
  - unfold call_get_resource_history.
    match goal with
    | |- context [with_connection r ?b s] =>
        pose proof (Step _ r b s R C) as F;
        destruct (with_connection r b s)
    end. exact F.
  - unfold _get_current_state.
    match goal with
    | |- context [with_connection r ?b s] =>
        pose proof (Step _ r b s R C) as F;
        destruct (with_connection r b s)
    end. exact F.
  - unfold track_changes, _get_current_state, call_log_change.
    match goal with
    | |- context [with_connection r1 ?b s] =>
        pose proof (Step _ r1 b s R C) as F1;
        destruct (with_connection r1 b s) as [[old|err] s1]
    end; cbn [fst snd raised] in *; [|exact F1].
    destruct F1 as (R1 & C1 & _ & _ & M1).
    destruct (body (resources s1)) as [[msg|] app];
      cbn [fst snd raised pool is_pool_error is_connect_error];
      [split; [exact R1|]; split; [exact C1|]; split; [reflexivity|];
       split; [auto | exact M1]|].
    match goal with
    | |- context [with_connection r2 ?b ?s2] =>
        pose proof (Step _ r2 b s2 R1 C1) as F2;
        destruct (with_connection r2 b s2) as [[new|err] s3]
    end; cbn [fst snd raised pool] in *.
    2:{ rewrite M1 in F2. exact F2. }
    destruct F2 as (R2 & C2 & _ & _ & M2).
    destruct (py_eq old new);
      cbn [fst snd raised is_pool_error is_connect_error];
      [split; [exact R2|]; split; [exact C2|]; split; [reflexivity|];
       split; [auto | congruence]|].
    match goal with
    | |- context [with_connection r3 ?b s3] =>
        pose proof (Step _ r3 b s3 R2 C2) as F3;
        destruct (with_connection r3 b s3) as [[id|err] s4]
    end; cbn [fst snd raised is_pool_error is_connect_error] in *.
    + destruct F3 as (R3 & C3 & _ & _ & M3).
      split; [exact R3|]; split; [exact C3|]; split; [reflexivity|];
      split; [auto | congruence].
    + rewrite M2, M1 in F3. exact F3.
Qed.

Lemma perform_all_at_rest self ops :
  forall s,
    pool_at_rest (pool s) -> has_capacity (pool s) ->
    existsb is_pool_error (fst (perform_all self ops s)) = false /\
    ((0 < minconn (pool s))%nat ->
     existsb is_connect_error (fst (perform_all self ops s)) = false) /\
    pool_at_rest (pool (snd (perform_all self ops s))).
Proof.
  induction ops as [|op ops IH]; intros s R C; cbn [perform_all].
  - cbn [fst snd existsb]. split; [reflexivity|]. split; [auto | exact R].
  - destruct (perform_at_rest self op s R C) as (R1 & C1 & E1 & E2 & M).
    destruct (perform self op s) as [r s1]. cbn [fst snd] in *.
    destruct (IH s1 R1 C1) as (I1 & I2 & I3).
    destruct (perform_all self ops s1) as [rs s2]. cbn [fst snd] in *.
    cbn [existsb]. rewrite E1, I1. split; [reflexivity|].
    split; [|exact I3].
    intros Hm. rewrite (E2 Hm). apply I2. now rewrite M.
Qed.

(** X18. When the constructor has returned, the rows that were in the
    table are all there; and whatever methods are then called one
    after the other, as long as neither the server nor the network
    fails during a call (a connection lost to such a failure does not
    go back into the pool), none of them fails for want of a
    connection in the pool, the pool is at rest after each of them,
    and with [min_conn] at least 1 none of them has to open a
    connection. *)
Theorem constructed_logger_serves
    secret min_conn max_conn reachable db app self s0 ops :
  __init__ secret min_conn max_conn reachable db app = Done (self, s0) ->
  Forall fault_free ops ->
  audit_logs s0 = match db with Some rows => rows | None => [] end /\
  existsb is_pool_error (fst (perform_all self ops s0)) = false /\
  ((0 < min_conn)%nat ->
   existsb is_connect_error (fst (perform_all self ops s0)) = false) /\
  pool_at_rest (pool (snd (perform_all self ops s0))).
Proof.
  unfold __init__.
  destruct (Nat.ltb 0 min_conn && negb reachable); [discriminate|].
  set (s := System (Pool min_conn max_conn min_conn 0 false)
                   match db with Some t => t | None => [] end app).
  assert (R : pool_at_rest (pool s))
    by (unfold pool_at_rest; cbn; repeat split; auto).
  destruct (with_connection_at_rest reachable
              (fun c => (Return tt, c)) s R) as (R1 & _ & _ & _ & C1).
  pose proof (read_only_frame reachable (fun _ => tt) s) as T.
  destruct (with_connection_frame reachable (fun c => (Return tt, c)) s)
    as (_ & _ & M & _).
  destruct (with_connection reachable (fun c => (Return tt, c)) s)
    as [[[]|err] s1] eqn:E; [|discriminate].
  intros H _. injection H as <- <-. cbn [fst snd raised] in *.
  specialize (C1 eq_refl eq_refl).
  destruct (perform_all_at_rest (Logger secret) ops s1 R1 C1)
    as (P1 & P2 & P3).
  split; [exact T|]. split; [exact P1|]. split; [|exact P3].
  intros Hm. apply P2. rewrite M. exact Hm.
Qed.

Lemma constructed_logger_serves_witness :
  let ops := [Verify true; LogChange false Scenario.request_b;
              History true (Some "INVOICE") Scenario.inv1 10] in
  __init__ "development-key-change-in-production" 1 10 true
           (Some Scenario.chain3) no_tables
  = Done (Scenario.logger, system_at_rest) /\
  Forall fault_free ops /\
  audit_logs system_at_rest = Scenario.chain3 /\
  existsb is_pool_error
          (fst (perform_all Scenario.logger ops system_at_rest)) = false /\
  ((0 < 1)%nat ->
   existsb is_connect_error
           (fst (perform_all Scenario.logger ops system_at_rest)) = false) /\
  pool_at_rest (pool (snd (perform_all Scenario.logger ops system_at_rest))).
Proof.
  assert (H : __init__ "development-key-change-in-production" 1 10 true
                       (Some Scenario.chain3) no_tables
              = Done (Scenario.logger, system_at_rest))
    by reflexivity.
  assert (F : Forall fault_free
                [Verify true; LogChange false Scenario.request_b;
                 History true (Some "INVOICE") Scenario.inv1 10])
    by (repeat constructor).
  split; [exact H|]. split; [exact F|].
  exact (constructed_logger_serves _ _ _ _ _ _ _ _ _ H F).
Defined.

(* ================================================================= *)
(** ** Tracking the changes of a block *)

Lemma with_connection_ready {A} reachable (body : db A) s :
  pool_ready (pool s) ->
  with_connection reachable body s
  = (match fst (body (Conn (audit_logs s) [])) with
     | Return a => Done a
     | Raise x => Failed (DatabaseError x)
     end,
     System (pool s) (committed (snd (body (Conn (audit_logs s) []))))
            (resources s)).
Proof.
  unfold pool_ready, with_connection, getconn, putconn.
  destruct s as [[mi ma i u cl] rows app].
  cbn [pool audit_logs resources closed idle used minconn maxconn].
  intros (-> & Hpos & Hle).
  destruct (Nat.ltb_spec 0 i); [|lia].
  destruct (body (Conn rows [])) as [[a|x] c];
    cbn [fst snd pool closed idle used minconn maxconn];
    (destruct (Nat.ltb_spec (i - 1) mi); [|lia]);
    repeat f_equal; lia.
Qed.

Lemma get_current_state_ready reachable rtype rid s :
  pool_ready (pool s) ->
  _get_current_state reachable rtype rid s
  = (Done (state_of (resources s) rtype rid), s).
Proof.
  intros R. unfold _get_current_state.
  rewrite with_connection_ready by exact R. cbn [fst snd committed].
  now destruct s.
Qed.

Lemma assoc_distinct k x (f : list (string * json)) :
  NoDup (map fst f) -> In (k, x) f -> assoc k f = Some x.
Proof.
  induction f as [|[k' y] f IH]; simpl; intros Hnd Hin; [contradiction|].
  inversion Hnd as [|? ? Hk Hf]; subst.
  destruct Hin as [E|Hin].
  - injection E as -> ->. now rewrite String.eqb_refl.
  - destruct (String.eqb_spec k' k) as [->|N]; [|now apply IH].
    exfalso. apply Hk. change k with (fst (k, x)). now apply in_map.
Qed.

(** A value equals itself. *)
Lemma py_eq_refl v : distinct_keys v = true -> py_eq v v = true.
Proof.
  induction v as [|b|n|s|items IH|fields IH] using json_induction;
    intros D; cbn [py_eq].
  - reflexivity.
  - now destruct b.
  - apply Z.eqb_refl.
  - apply String.eqb_refl.
  - cbn [distinct_keys] in D.
    induction IH as [|x l Hx Hl IHl]; [reflexivity|].
    cbn [forallb] in D. apply andb_true_iff in D as [Dx Dl].
    rewrite (Hx Dx). cbn [andb]. now apply IHl.
  - cbn [distinct_keys] in D. apply andb_true_iff in D as [Dk Dv].
    apply nodupb_NoDup in Dk.
    rewrite Nat.eqb_refl. cbn [andb].
    apply forallb_forall. intros [k x] Hin.
    rewrite (assoc_distinct k x fields Dk Hin).
    rewrite Forall_forall in IH. apply (IH (k, x) Hin).
    rewrite forallb_forall in Dv. apply (Dv (k, x) Hin).
Qed.

(** X19. [track_changes] adds at most one row to the log.  A row is
    added only when the state of the resource after the block differs
    from the state before it; the row then has the action [UPDATE],
    the UUIDs that the given actor and resource denote, and the two
    states as [old_values] and [new_values] (NULL for a state that is
    false). *)
Theorem track_changes_logs_at_most_once
    self r1 r2 r3 e actor rtype rid body s :
  let s' := snd (track_changes self r1 r2 r3 e actor rtype rid body s) in
  audit_logs s' = audit_logs s \/
  exists row,
    audit_logs s' = (audit_logs s ++ [row])%list /\
    action row = "UPDATE" /\
    (exists a, actor = Some a /\ uuid_in a = Some (actor_id row)) /\
    uuid_in rid = Some (resource_id row) /\
    py_eq (state_of (resources s) rtype rid)
          (state_of (resources s') rtype rid) = false /\
    old_values row = to_jsonb (state_of (resources s) rtype rid) /\
    new_values row = to_jsonb (state_of (resources s') rtype rid).
Proof.
  cbv zeta.
  destruct (track_changes self r1 r2 r3 e actor rtype rid body s)
    as [res s'] eqn:E.
  cbn [snd]. revert E. unfold track_changes, _get_current_state.
  fold (state_of (resources s) rtype rid).
  pose proof (with_connection_frame r1
                (fun c => (Return (state_of (resources s) rtype rid), c)) s)
    as (_ & _ & _ & _ & A1 & T1).
  destruct (with_connection r1
              (fun c => (Return (state_of (resources s) rtype rid), c)) s)
    as [[old|err] s1] eqn:E1; cbn [snd] in *.
  2:{ intros [= <- <-]. left. destruct T1 as [T1|T1]; exact T1. }
  assert (T1' : audit_logs s1 = audit_logs s)
    by (destruct T1 as [T1|T1]; exact T1).
  assert (Hold : old = state_of (resources s) rtype rid).
  { revert E1. unfold with_connection.
    destruct (getconn r1 (pool s)) as [[[]|?] p1]; [|discriminate].
    destruct (putconn p1) as [[[]|?] p2]; cbn; congruence. }
  destruct (body (resources s1)) as [[msg|] app] eqn:B.
  { intros [= <- <-]. left. exact T1'. }
  cbn [resources].
  fold (state_of app rtype rid).
  set (s2 := System (pool s1) (audit_logs s1) app).
  pose proof (with_connection_frame r2
                (fun c => (Return (state_of app rtype rid), c))
                s2) as (_ & _ & _ & _ & A2 & T2).
  destruct (with_connection r2
              (fun c => (Return (state_of app rtype rid), c)) s2)
    as [[new|err] s3] eqn:E2; cbn [snd] in *.
  2:{ intros [= <- <-]. left. destruct T2 as [T2|T2]; rewrite T2; exact T1'. }
  assert (T2' : audit_logs s3 = audit_logs s)
    by (destruct T2 as [T2|T2]; rewrite T2; exact T1').
  assert (Hnew : new = state_of app rtype rid).
  { revert E2. unfold with_connection.
    destruct (getconn r2 (pool s2)) as [[[]|?] p1]; [|discriminate].
    destruct (putconn p1) as [[[]|?] p2]; cbn; congruence. }
  destruct (py_eq old new) eqn:Eq; [intros [= <- <-]; left; exact T2'|].
  unfold call_log_change.
  pose proof (with_connection_frame r3
                (log_change self e actor "UPDATE" rtype rid old new) s3)
    as (_ & _ & _ & _ & A3 & T3).
  destruct (with_connection r3
              (log_change self e actor "UPDATE" rtype rid old new) s3)
    as [[id|err] s4]; cbn [snd] in *; intros [= <- <-].
  all: destruct T3 as [T3|T3]; [left; congruence|].
  all: destruct (log_change self e actor "UPDATE" rtype rid old new
                (Conn (audit_logs s3) [])) as [[id'|x] c'] eqn:L.
  all: try (apply log_change_raises in L; subst c'; left;
            rewrite T3; cbn; exact T2').
  all: apply log_change_returns in L
        as (a & act' & rt' & row & -> & Hact & _
            & (a' & rid' & Ha' & Hrid' & Hrow) & _ & -> & _).
  all: rewrite (varchar_short 50 "UPDATE") in Hact
        by (vm_compute; repeat constructor).
  all: injection Hact as <-.
  all: right; exists row; rewrite T3; unfold visible;
       cbn [snd committed pending].
  all: rewrite app_nil_r, T2', A3, A2; cbn [resources s2].
  all: subst row old new; cbn [action actor_id resource_id old_values
                                new_values].
  all: split; [reflexivity|]; split; [reflexivity|];
       split; [exists a; auto|]; auto.
Qed.

(** X20. When the block raises, [track_changes] lets the exception
    through and writes nothing to the log; what the block did to the
    application's data before it raised stays. *)
Theorem block_exception_not_logged
    self r1 r2 r3 e actor rtype rid body s msg app :
  pool_ready (pool s) ->
  body (resources s) = (Some msg, app) ->
  track_changes self r1 r2 r3 e actor rtype rid body s
  = (Failed (BlockError msg), System (pool s) (audit_logs s) app).
Proof.
  intros R B. unfold track_changes.
  rewrite (get_current_state_ready r1 rtype rid s R).
  now rewrite B.
Qed.

Lemma block_exception_not_logged_witness :
  pool_ready (pool billing_at_rest) /\
  failing_block "boom" (resources billing_at_rest)
  = (Some "boom", resources billing_at_rest) /\
  track_changes Scenario.logger true true true
    (Scenario.env_at 3 Scenario.id_a None) (Some Scenario.u1)
    (Some "INVOICE") Scenario.inv1 (failing_block "boom") billing_at_rest
  = (Failed (BlockError "boom"),
     System (pool billing_at_rest) (audit_logs billing_at_rest)
            (resources billing_at_rest)).
Proof.
  assert (R : pool_ready (pool billing_at_rest))
    by (unfold pool_ready; simpl; lia).
  assert (B : failing_block "boom" (resources billing_at_rest)
              = (Some "boom", resources billing_at_rest))
    by reflexivity.
  split; [exact R|]. split; [exact B|].
  exact (block_exception_not_logged _ _ _ _ _ _ _ _ _ _ _ _ R B).
Defined.

(** X21. When the state read after the block equals the state read
    before it, [track_changes] returns without calling [log_change]:
    the log is unchanged.  This includes a resource whose table cannot
    be read, or that has no row, before and after: both states are
    [None]. *)
Theorem unchanged_state_not_logged
    self r1 r2 r3 e actor rtype rid body s app :
  pool_ready (pool s) ->
  body (resources s) = (None, app) ->
  state_of app rtype rid = state_of (resources s) rtype rid ->
  distinct_keys (state_of app rtype rid) = true ->
  track_changes self r1 r2 r3 e actor rtype rid body s
  = (Done tt, System (pool s) (audit_logs s) app).
Proof.
  intros R B Same D. unfold track_changes.
  rewrite (get_current_state_ready r1 rtype rid s R), B.
  rewrite get_current_state_ready by exact R.
  cbn [resources]. rewrite <- Same, (py_eq_refl _ D). reflexivity.
Qed.

Lemma unchanged_state_not_logged_witness :
  pool_ready (pool system_at_rest) /\
  set_invoice Scenario.paid (resources system_at_rest)
  = (None, invoices_with Scenario.paid) /\
  state_of (invoices_with Scenario.paid) (Some "ORDER") Scenario.inv1
  = state_of (resources system_at_rest) (Some "ORDER") Scenario.inv1 /\
  distinct_keys
    (state_of (invoices_with Scenario.paid) (Some "ORDER") Scenario.inv1)
  = true /\
  track_changes Scenario.logger true true true
    (Scenario.env_at 3 Scenario.id_a None) (Some Scenario.u1)
    (Some "ORDER") Scenario.inv1 (set_invoice Scenario.paid) system_at_rest
  = (Done tt,
     System (pool system_at_rest) (audit_logs system_at_rest)
            (invoices_with Scenario.paid)).
Proof.
  assert (R : pool_ready (pool system_at_rest))
    by (unfold pool_ready; simpl; lia).
  assert (B : set_invoice Scenario.paid (resources system_at_rest)
              = (None, invoices_with Scenario.paid))
    by reflexivity.
  assert (Same :
    state_of (invoices_with Scenario.paid) (Some "ORDER") Scenario.inv1
    = state_of (resources system_at_rest) (Some "ORDER") Scenario.inv1)
    by reflexivity.
  assert (D : distinct_keys
                (state_of (invoices_with Scenario.paid) (Some "ORDER")
                          Scenario.inv1) = true)
    by reflexivity.
  split; [exact R|]. split; [exact B|]. split; [exact Same|].
  split; [exact D|].
  exact (unchanged_state_not_logged _ _ _ _ _ _ _ _ _ _ _ R B Same D).
Defined.

(** X22. When the block changed the resource but the call has no
    actor, the [log_change] inside [track_changes] fails: the call
    raises after the block has run, so the block's change stays and
    the log has no row for it. *)
Theorem change_by_no_actor_is_lost
    self r1 r2 r3 e rtype rid body s app :
  pool_ready (pool s) ->
  body (resources s) = (None, app) ->
  py_eq (state_of (resources s) rtype rid) (state_of app rtype rid)
  = false ->
  exists err,
    track_changes self r1 r2 r3 e None rtype rid body s
    = (Failed (DatabaseError err), System (pool s) (audit_logs s) app).
Proof.
  intros R B Diff. unfold track_changes.
  rewrite (get_current_state_ready r1 rtype rid s R), B.
  rewrite get_current_state_ready by exact R.
  cbn [resources]. rewrite Diff.
  unfold call_log_change.
  rewrite with_connection_ready by exact R.
  cbn [pool audit_logs resources].
  destruct (log_change_needs_actor self e "UPDATE" rtype rid
              (state_of (resources s) rtype rid) (state_of app rtype rid)
              (Conn (audit_logs s) [])) as [err L].
  exists err. rewrite L. reflexivity.
Qed.

Lemma change_by_no_actor_is_lost_witness :
  pool_ready (pool billing_at_rest) /\
  set_invoice Scenario.paid (resources billing_at_rest)
  = (None, invoices_with Scenario.paid) /\
  py_eq (state_of (resources billing_at_rest) (Some "INVOICE") Scenario.inv1)
        (state_of (invoices_with Scenario.paid) (Some "INVOICE")
                  Scenario.inv1) = false /\
  exists err,
    track_changes Scenario.logger true true true
      (Scenario.env_at 3 Scenario.id_a None) None
      (Some "INVOICE") Scenario.inv1 (set_invoice Scenario.paid)
      billing_at_rest
    = (Failed (DatabaseError err),
       System (pool billing_at_rest) (audit_logs billing_at_rest)
              (invoices_with Scenario.paid)).
Proof.
  assert (R : pool_ready (pool billing_at_rest))
    by (unfold pool_ready; simpl; lia).
  assert (B : set_invoice Scenario.paid (resources billing_at_rest)
              = (None, invoices_with Scenario.paid))
    by reflexivity.
  assert (Diff :
    py_eq (state_of (resources billing_at_rest) (Some "INVOICE")
                    Scenario.inv1)
          (state_of (invoices_with Scenario.paid) (Some "INVOICE")
                    Scenario.inv1) = false)
    by (vm_compute; reflexivity).
  split; [exact R|]. split; [exact B|]. split; [exact Diff|].
  exact (change_by_no_actor_is_lost _ _ _ _ _ _ _ _ _ _ R B Diff).
Defined.

(** The block that marks the invoice as paid is logged as one row. *)
Example tracked_update_is_logged :
  let s' := snd (track_changes Scenario.logger true true true
                   (Scenario.env_at 3 "00000000-0000-4000-8000-00000000000d" None)
                   (Some Scenario.u1) (Some "INVOICE") Scenario.inv1
                   (set_invoice Scenario.paid) billing_at_rest) in
  List.length (audit_logs s') = 4%nat /\
  map action (audit_logs s') = ["CREATE"; "UPDATE"; "DELETE"; "UPDATE"] /\
  map new_values (skipn 3 (audit_logs s')) = [Some Scenario.paid].
Proof. vm_compute. repeat split. Qed.
